(** * Note hooks, note list and image-upload modal of the research-hub front end

    A shallow embedding of the note hooks module (useNote, useCreateNote,
    useNoteContent, useDeleteNote, useUpdateNote, useMakeNotePrivate,
    useUpdateNotePermissions, useDuplicateNote), of the NoteList component
    and of the file handlers of ImageUploadModal.

    Asynchronous hook actions are embedded in a writer/exception monad: the
    writer part records, in program order, the React state setters, service
    requests, console output and callbacks the action performs; the exception
    part is the completion of the returned promise (resolved or rejected). *)

From Stdlib Require Import ZArith Lia Sorted Permutation.
From stdpp Require Import base option list strings gmap.

Local Open Scope string_scope.
Local Open Scope Z_scope.
Local Open Scope list_scope.

(** ** JavaScript values used by the components *)

Module Js.

(** Modelled from the spec: the [ID] type of [@/types/root] is not part of
    the sources. Identifiers are strings (the [noteId: string] of useNote
    and useDuplicateNote) or numbers. *)
Inductive ID :=
| IdStr (s : string)
| IdNum (n : Z).

(** Truthiness of a string: only the empty string is falsy. *)
Definition truthy_string (s : string) : bool :=
  match s with
  | EmptyString => false
  | String _ _ => true
  end.

(** Truthiness of an optional string ([undefined] is falsy). *)
Definition truthy_opt (o : option string) : bool :=
  match o with
  | Some s => truthy_string s
  | None => false
  end.

(** Truthiness of an identifier: [''] and [0] are falsy. *)
Definition truthy_id (i : ID) : bool :=
  match i with
  | IdStr s => truthy_string s
  | IdNum n => negb (Z.eqb n 0)
  end.

(** [o || d] on an optional string. *)
Definition or_default (o : option string) (d : string) : string :=
  match o with
  | Some s => if truthy_string s then s else d
  | None => d
  end.

(** Error objects. [NoteError] is the error class of the note service,
    whose declaration is not part of the sources; it is taken to extend
    [Error], so that it and the plain [Error] are both instances of
    [Error]. *)
Inductive ErrorObj :=
| NoteError (message : string)
| PlainError (message : string).

Definition message (e : ErrorObj) : string :=
  match e with
  | NoteError m => m
  | PlainError m => m
  end.

(** A thrown value: an [Error] instance or anything else. *)
Inductive Thrown :=
| ThrownError (e : ErrorObj)
| ThrownOther.

(** [err instanceof NoteError ? err.message : fallback] *)
Definition note_error_message (err : Thrown) (fallback : string) : string :=
  match err with
  | ThrownError (NoteError m) => m
  | _ => fallback
  end.

(** [err instanceof Error ? err : new Error(fallback)] *)
Definition error_or_new (err : Thrown) (fallback : string) : ErrorObj :=
  match err with
  | ThrownError e => e
  | ThrownOther => PlainError fallback
  end.

(** Settlement of a promise. *)
Inductive Outcome (A : Type) :=
| Resolved (a : A)
| Rejected (t : Thrown).
Arguments Resolved {A} a.
Arguments Rejected {A} t.

End Js.
Export Js.

(** ** Entities mirrored from the remote API *)

Module Entities.

(** Modelled from the spec: the [NoteAccess] union of [@/types/note] is not
    part of the sources; the access scope of a note is workspace-shared
    (the literals ['WORKSPACE'] and ['SHARED'] tested by NoteList) or
    private (['PRIVATE']). *)
Inductive NoteAccess := WORKSPACE | SHARED | PRIVATE.

(** Modelled from the spec: [Note] has an id, a title, an access level and
    timestamps. [updatedDate] is kept as the millisecond value that
    [new Date(updatedDate).getTime()] yields for a valid date. *)
Record Note := mkNote {
  id : ID;
  title : string;
  access : NoteAccess;
  createdDate : Z;
  updatedDate : Z
}.

(** Modelled from the spec: [NoteWithContent] adds the serialized document
    body; the three body fields are optional. *)
Record NoteWithContent := mkNoteWithContent {
  nwc_note : Note;
  content : option string;
  contentJson : option string;
  plainText : option string
}.

(** Modelled from the spec: [NoteContent] is the plain text / HTML / JSON
    document stored for a note. *)
Record NoteContent := mkNoteContent {
  nc_note : ID;
  nc_src : option string;
  nc_plain_text : option string;
  nc_json : option string
}.

End Entities.
Export Entities.

(** ** The note service *)

Module Service.

Record CreateNoteReq := mkCreateNoteReq {
  cr_title : string;
  cr_grouping : NoteAccess;
  cr_organization_slug : string
}.

Record UpdateContentReq := mkUpdateContentReq {
  uc_note : ID;
  uc_full_src : option string;
  uc_plain_text : option string;
  uc_full_json : option string
}.

Record UpdateTitleReq := mkUpdateTitleReq {
  ut_noteId : ID;
  ut_title : string
}.

(** Only ['ADMIN'] is a legal access type of updateNotePermissions. *)
Inductive AccessType := ADMIN.

(** The requests a hook can send to [NoteService]. *)
Inductive ServiceCall :=
| GetNote (noteId : string)
| CreateNote (r : CreateNoteReq)
| UpdateNoteContent (r : UpdateContentReq)
| UpdateNoteTitle (r : UpdateTitleReq)
| DeleteNote (noteId : ID)
| MakePrivate (noteId : ID)
| UpdateNotePermissions (noteId organizationId : ID) (a : option AccessType).

(** The remote service as seen by the hooks: how each request settles. *)
Record NoteService := mkNoteService {
  getNote : string -> Outcome NoteWithContent;
  createNote : CreateNoteReq -> Outcome Note;
  updateNoteContent : UpdateContentReq -> Outcome NoteContent;
  updateNoteTitle : UpdateTitleReq -> Outcome unit;
  deleteNote : ID -> Outcome Note;
  makePrivate : ID -> Outcome Note;
  updateNotePermissions : ID -> ID -> option AccessType -> Outcome bool
}.

End Service.
Export Service.

(** ** Effects and the monad of asynchronous actions *)

Module Async.

(** What an action does to the outside, [N] being the entity type kept in
    the hook's [note] cell. *)
Inductive Effect (N : Type) :=
| SetNote (n : option N)
| SetIsLoading (b : bool)
| SetError (e : option ErrorObj)
| SetTitleRef (t : string)
| Call (c : ServiceCall)
| ConsoleError (msg : string)
| OnTitleUpdate (t : string).
Arguments SetNote {N} n.
Arguments SetIsLoading {N} b.
Arguments SetError {N} e.
Arguments SetTitleRef {N} t.
Arguments Call {N} c.
Arguments ConsoleError {N} msg.
Arguments OnTitleUpdate {N} t.

(** Completion of an action: it returns or it throws. *)
Inductive Result (A : Type) :=
| Return (a : A)
| Throw (t : Thrown).
Arguments Return {A} a.
Arguments Throw {A} t.

Definition Async (N A : Type) : Type := list (Effect N) * Result A.

Definition trace {N A} (m : Async N A) : list (Effect N) := fst m.
Definition result {N A} (m : Async N A) : Result A := snd m.

Definition ret {N A} (a : A) : Async N A := ([], Return a).

Definition bind {N A B} (m : Async N A) (k : A -> Async N B) : Async N B :=
  match m with
  | (tr, Return a) => let '(tr', r) := k a in (tr ++ tr', r)
  | (tr, Throw t) => (tr, Throw t)
  end.

#[export] Instance async_ret N : MRet (Async N) := @ret N.
#[export] Instance async_bind N : MBind (Async N) :=
  fun A B k m => bind m k.

Definition emit {N} (e : Effect N) : Async N unit := ([e], Return tt).

Definition throw {N A} (t : Thrown) : Async N A := ([], Throw t).

(** [await] of a service request: the request is sent, then the action
    continues with the response or throws the rejection. *)
Definition await {N A} (c : ServiceCall) (o : Outcome A) : Async N A :=
  match o with
  | Resolved a => ([Call c], Return a)
  | Rejected t => ([Call c], Throw t)
  end.

(** [try { body } catch (err) { handler err } finally { finalizer }]: the
    finalizer runs in every case; its own completion wins only when it
    throws. *)
Definition try_catch_finally {N A} (body : Async N A)
    (handler : Thrown -> Async N A) (finalizer : Async N unit) : Async N A :=
  let '(tr1, r1) := body in
  let '(tr2, r2) :=
    match r1 with
    | Return a => ([], Return a)
    | Throw t => handler t
    end in
  let '(tr3, r3) := finalizer in
  (tr1 ++ tr2 ++ tr3,
   match r3 with
   | Throw t => Throw t
   | Return _ => r2
   end).

(** The calls to the service among the effects of a trace. *)
Definition calls_of {N} (tr : list (Effect N)) : list ServiceCall :=
  omap (fun e => match e with Call c => Some c | _ => None end) tr.

End Async.
Export Async.

(** ** React state of a hook *)

Module Cells.

(** The [useState] cells of a note hook as read by one render. Hooks
    without a [note] cell use [N := Empty_set] and never set it. *)
Record Cells (N : Type) := mkCells {
  c_note : option N;
  c_isLoading : bool;
  c_error : option ErrorObj
}.
Arguments mkCells {N}.
Arguments c_note {N}.
Arguments c_isLoading {N}.
Arguments c_error {N}.

(** [useState] initial values. *)
Definition initial {N} : Cells N := mkCells None false None.

Definition apply_effect {N} (c : Cells N) (e : Effect N) : Cells N :=
  match e with
  | SetNote n => mkCells n (c_isLoading c) (c_error c)
  | SetIsLoading b => mkCells (c_note c) b (c_error c)
  | SetError err => mkCells (c_note c) (c_isLoading c) err
  | _ => c
  end.

(** The cells after the setters of a trace have been applied in order. *)
Definition apply_effects {N} (c : Cells N) (tr : list (Effect N)) : Cells N :=
  foldl apply_effect c tr.

End Cells.
Export Cells.

(** ** The note hooks *)

Module Hooks.

(** The state half of every hook result carries at least the loading flag
    and the last error. *)
Class LoadingState (S : Type) := {
  isLoading : S -> bool;
  error : S -> option ErrorObj
}.

(** [{ note, isLoading, error }] *)
Record NoteState (N : Type) := mkNoteState {
  note : option N;
  ns_isLoading : bool;
  ns_error : option ErrorObj
}.
Arguments mkNoteState {N}.
Arguments note {N}.
Arguments ns_isLoading {N}.
Arguments ns_error {N}.

(** [{ isLoading, error }] *)
Record ActionState := mkActionState {
  as_isLoading : bool;
  as_error : option ErrorObj
}.

#[export] Instance note_state_loading N : LoadingState (NoteState N) :=
  {| isLoading := ns_isLoading; error := ns_error |}.
#[export] Instance action_state_loading : LoadingState ActionState :=
  {| isLoading := as_isLoading; error := as_error |}.

Definition note_state {N} (c : Cells N) : NoteState N :=
  mkNoteState (c_note c) (c_isLoading c) (c_error c).

Definition action_state (c : Cells Empty_set) : ActionState :=
  mkActionState (c_isLoading c) (c_error c).

Record UseNoteOptions := mkUseNoteOptions {
  sendImmediately : option bool
}.

(** Default value of the [options] parameter of useNote. *)
Definition default_options : UseNoteOptions := mkUseNoteOptions (Some true).

Record CreateNoteInput := mkCreateNoteInput {
  ci_title : string;
  ci_grouping : NoteAccess;
  ci_organizationSlug : string
}.

Record UpdateNoteContentInput := mkUpdateNoteContentInput {
  ui_note : ID;
  ui_fullSrc : option string;
  ui_plainText : option string;
  ui_fullJson : option string
}.

Record UpdateNotePermissionsInput := mkUpdateNotePermissionsInput {
  pi_noteId : ID;
  pi_organizationId : ID;
  pi_accessType : option AccessType
}.

Section WithService.

Variable svc : NoteService.

(** *** useNote *)

Definition fetch (noteId : string) : Async NoteWithContent unit :=
  try_catch_finally
    (emit (SetIsLoading true);;
     emit (SetError None);;
     noteData ← await (GetNote noteId) (getNote svc noteId);
     emit (SetNote (Some noteData)))
    (fun err =>
       emit (SetError (Some (error_or_new err "Failed to fetch note")));;
       emit (SetNote None))
    (emit (SetIsLoading false)).

(** The mount effect: fetch unless [sendImmediately] is [false]. *)
Definition useNote_effect (noteId : string) (options : UseNoteOptions)
  : Async NoteWithContent unit :=
  match sendImmediately options with
  | Some false => mret tt
  | _ => fetch noteId
  end.

Definition useNote (noteId : string) (options : UseNoteOptions)
    (cells : Cells NoteWithContent)
  : NoteState NoteWithContent * Async NoteWithContent unit :=
  (note_state cells, fetch noteId).

(** *** useCreateNote *)

Definition createNote_action (params : CreateNoteInput) : Async Note Note :=
  emit (SetIsLoading true);;
  emit (SetError None);;
  try_catch_finally
    (let req := mkCreateNoteReq (ci_title params) (ci_grouping params)
                  (ci_organizationSlug params) in
     response ← await (CreateNote req) (createNote svc req);
     emit (SetNote (Some response));;
     mret response)
    (fun err =>
       let errorMsg := note_error_message err "Failed to create note" in
       let error := PlainError errorMsg in
       emit (SetError (Some error));;
       throw (ThrownError error))
    (emit (SetIsLoading false)).

Definition useCreateNote (cells : Cells Note)
  : NoteState Note * (CreateNoteInput -> Async Note Note) :=
  (note_state cells, createNote_action).

(** *** useNoteContent *)

Definition updateNoteContent_action (params : UpdateNoteContentInput)
  : Async NoteContent NoteContent :=
  emit (SetIsLoading true);;
  emit (SetError None);;
  try_catch_finally
    (let req := mkUpdateContentReq (ui_note params) (ui_fullSrc params)
                  (ui_plainText params) (ui_fullJson params) in
     response ← await (UpdateNoteContent req) (updateNoteContent svc req);
     emit (SetNote (Some response));;
     mret response)
    (fun err =>
       let errorMsg := note_error_message err "Failed to update note content" in
       let error := PlainError errorMsg in
       emit (SetError (Some error));;
       throw (ThrownError error))
    (emit (SetIsLoading false)).

Definition useNoteContent (cells : Cells NoteContent)
  : NoteState NoteContent * (UpdateNoteContentInput -> Async NoteContent NoteContent) :=
  (note_state cells, updateNoteContent_action).

(** *** useDeleteNote *)

Definition deleteNote_action (noteId : ID) : Async Empty_set Note :=
  emit (SetIsLoading true);;
  emit (SetError None);;
  try_catch_finally
    (response ← await (DeleteNote noteId) (deleteNote svc noteId);
     mret response)
    (fun err =>
       let errorMsg := note_error_message err "Failed to delete note" in
       let error := PlainError errorMsg in
       emit (SetError (Some error));;
       throw (ThrownError error))
    (emit (SetIsLoading false)).

Definition useDeleteNote (cells : Cells Empty_set)
  : ActionState * (ID -> Async Empty_set Note) :=
  (action_state cells, deleteNote_action).

(** *** useMakeNotePrivate *)

Definition makeNotePrivate_action (noteId : ID) : Async Empty_set Note :=
  emit (SetIsLoading true);;
  emit (SetError None);;
  try_catch_finally
    (response ← await (MakePrivate noteId) (makePrivate svc noteId);
     mret response)
    (fun err =>
       let errorMsg := note_error_message err "Failed to make note private" in
       let error := PlainError errorMsg in
       emit (SetError (Some error));;
       throw (ThrownError error))
    (emit (SetIsLoading false)).

Definition useMakeNotePrivate (cells : Cells Empty_set)
  : ActionState * (ID -> Async Empty_set Note) :=
  (action_state cells, makeNotePrivate_action).

(** *** useUpdateNotePermissions *)

Definition updatePermissions_action (params : UpdateNotePermissionsInput)
  : Async Empty_set bool :=
  emit (SetIsLoading true);;
  emit (SetError None);;
  try_catch_finally
    (response ← await
       (UpdateNotePermissions (pi_noteId params) (pi_organizationId params)
          (pi_accessType params))
       (updateNotePermissions svc (pi_noteId params) (pi_organizationId params)
          (pi_accessType params));
     mret response)
    (fun err =>
       let errorMsg := note_error_message err "Failed to update note permissions" in
       let error := PlainError errorMsg in
       emit (SetError (Some error));;
       throw (ThrownError error))
    (emit (SetIsLoading false)).

Definition useUpdateNotePermissions (cells : Cells Empty_set)
  : ActionState * (UpdateNotePermissionsInput -> Async Empty_set bool) :=
  (action_state cells, updatePermissions_action).

(** *** useDuplicateNote *)

Definition duplicateNote_action (noteId organizationSlug : string)
  : Async Empty_set Note :=
  emit (SetIsLoading true);;
  emit (SetError None);;
  try_catch_finally
    (originalNote ← await (GetNote noteId) (getNote svc noteId);
     let req := mkCreateNoteReq (title (nwc_note originalNote) +:+ " (Copy)")
                  (access (nwc_note originalNote)) organizationSlug in
     newNote ← await (CreateNote req) (createNote svc req);
     (if truthy_opt (content originalNote) || truthy_opt (contentJson originalNote)
      then
        let creq := mkUpdateContentReq (id newNote) (content originalNote)
                      (plainText originalNote) (contentJson originalNote) in
        _ ← await (UpdateNoteContent creq) (updateNoteContent svc creq);
        mret tt
      else mret tt);;
     mret newNote)
    (fun err =>
       let errorMsg := note_error_message err "Failed to duplicate note" in
       let error := PlainError errorMsg in
       emit (SetError (Some error));;
       throw (ThrownError error))
    (emit (SetIsLoading false)).

Definition useDuplicateNote (cells : Cells Empty_set)
  : ActionState * (string -> string -> Async Empty_set Note) :=
  (action_state cells, duplicateNote_action).

End WithService.

End Hooks.
Export Hooks.

(** ** The debounced flush of useUpdateNote *)

Module UpdateNote.

(** What a flush reads from the TipTap editor: [getHTML()], [getText()],
    [JSON.stringify(getJSON())] and the result of
    [getDocumentTitleFromEditor(editor)], a helper that is not part of the
    sources and whose result is therefore a field here ([None] when it
    yields no title). *)
Record Editor := mkEditor {
  getHTML : string;
  getText : string;
  getJSON_stringified : string;
  documentTitle : option string
}.

Record UpdateNoteOptions := mkUpdateNoteOptions {
  onTitleUpdate : bool;        (* is the optional callback supplied *)
  debounceMs : option Z
}.

(** [options.onTitleUpdate?.(newTitle)]; the callback is the caller's and is
    taken to return normally. *)
Definition call_onTitleUpdate {N} (options : UpdateNoteOptions) (newTitle : string)
  : list (Effect N) :=
  if onTitleUpdate options then [OnTitleUpdate newTitle] else [].

(** [await Promise.all(promises)] for the one or two requests of a flush.
    [cb] is the reaction chained on the title request, [title] its
    settlement when the request was made, [title_first] tells which of two
    requests settles first. The first component is what happens up to the
    settlement of [Promise.all]; the second is the reaction that is still
    to run when [Promise.all] has already rejected. *)
Definition await_all {N} (cb : list (Effect N)) (title : option (Outcome unit))
    (body : Outcome NoteContent) (title_first : bool)
  : Async N unit * list (Effect N) :=
  match title, body with
  | None, Resolved _ => (([], Return tt), [])
  | None, Rejected e => (([], Throw e), [])
  | Some (Resolved _), Resolved _ => ((cb, Return tt), [])
  | Some (Resolved _), Rejected e =>
      if title_first then ((cb, Throw e), []) else (([], Throw e), cb)
  | Some (Rejected e), Resolved _ => (([], Throw e), [])
  | Some (Rejected e1), Rejected e2 =>
      (([], Throw (if title_first then e1 else e2)), [])
  end.

Definition guard_message : string :=
  "Editor or noteId is undefined in debouncedUpdate".

Section Flush.

Variable options : UpdateNoteOptions.
Variable svc : NoteService.
(** Which of the two requests of the flush settles first. *)
Variable title_first : bool.

Definition title_request (noteId : ID) (newTitle : string) : UpdateTitleReq :=
  mkUpdateTitleReq noteId newTitle.

Definition content_request (editor : Editor) (noteId : ID) : UpdateContentReq :=
  mkUpdateContentReq noteId
    (Some (or_default (Some (getHTML editor)) ""))
    (Some (or_default (Some (getText editor)) ""))
    (Some (getJSON_stringified editor)).

(** The function wrapped by [debounce]: one flush, started with
    [titleRef.current = titleRef]. *)
Definition debouncedUpdate_body (titleRef : string) (editor : option Editor)
    (noteId : ID) : Async Empty_set unit :=
  match editor with
  | None => emit (ConsoleError guard_message)
  | Some ed =>
    if negb (truthy_id noteId) then emit (ConsoleError guard_message)
    else
      let newTitle := or_default (documentTitle ed) "" in
      let changed := negb (String.eqb newTitle titleRef) in
      let treq := title_request noteId newTitle in
      let creq := content_request ed noteId in
      let '(settled, late) :=
        await_all (call_onTitleUpdate options newTitle)
          (if changed then Some (updateNoteTitle svc treq) else None)
          (updateNoteContent svc creq) title_first in
      let '(tr, r) :=
        emit (SetIsLoading true);;
        emit (SetError None);;
        try_catch_finally
          ((if changed
            then emit (SetTitleRef newTitle);; emit (Call (UpdateNoteTitle treq))
            else mret tt);;
           emit (Call (UpdateNoteContent creq));;
           settled)
          (fun err =>
             let errorMsg := note_error_message err "Failed to update note" in
             let error := PlainError errorMsg in
             emit (SetError (Some error));;
             emit (ConsoleError "Error updating note:"))
          (emit (SetIsLoading false)) in
      (tr ++ late, r)
  end.

(** [titleRef.current] after the effects of a trace. *)
Definition titleRef_after {N} (titleRef : string) (tr : list (Effect N)) : string :=
  foldl (fun cur e => match e with SetTitleRef t => t | _ => cur end) titleRef tr.

End Flush.

(** [useRef<string>('')] *)
Definition titleRef_initial : string := "".

End UpdateNote.
Export UpdateNote.

(** ** lodash [debounce] with its default options

    The hook imports [debounce] from lodash and calls it with a wait only:
    [leading = false], [trailing = true], no [maxWait]. The state is the
    closure state of the debounced function; [timerId] holds the instant at
    which the pending timeout is due, and the functions below are the inner
    functions of [debounce] of the same names. *)

Module Lodash.

Section Debounce.

Context {Args : Type}.
Variable wait : Z.

Record Debounced := mkDebounced {
  lastArgs : option Args;
  lastCallTime : option Z;
  lastInvokeTime : Z;
  timerId : option Z
}.

(** State right after [debounce(func, wait)]. *)
Definition created : Debounced := mkDebounced None None 0 None.

(** [setTimeout(timerExpired, delay)] issued at [now]: a negative delay
    counts as zero. *)
Definition setTimeout (now delay : Z) : option Z := Some (now + Z.max 0 delay).

Definition shouldInvoke (time : Z) (s : Debounced) : bool :=
  match lastCallTime s with
  | None => true
  | Some lc => (wait <=? time - lc) || (time - lc <? 0)
  end.

Definition remainingWait (time : Z) (s : Debounced) : Z :=
  match lastCallTime s with
  | None => wait
  | Some lc => wait - (time - lc)
  end.

(** A call of the debounced function at [time]. With the default options
    no call invokes [func] itself: it records the arguments and makes sure
    a timer is pending. *)
Definition debounced (time : Z) (args : Args) (s : Debounced) : Debounced :=
  let isInvoking := shouldInvoke time s in
  match timerId s with
  | None =>
      if isInvoking
      then (* leadingEdge *)
        mkDebounced (Some args) (Some time) time (setTimeout time wait)
      else mkDebounced (Some args) (Some time) (lastInvokeTime s)
             (setTimeout time wait)
  | Some d => mkDebounced (Some args) (Some time) (lastInvokeTime s) (Some d)
  end.

(** [trailingEdge]: the timer is gone; [func] is invoked with the recorded
    arguments when there are any. *)
Definition trailingEdge (time : Z) (s : Debounced) : Debounced * option Args :=
  match lastArgs s with
  | Some args => (mkDebounced None (lastCallTime s) time None, Some args)
  | None => (mkDebounced None (lastCallTime s) (lastInvokeTime s) None, None)
  end.

(** [timerExpired] running at [time]: invoke, or restart the timer for the
    remaining wait. *)
Definition timerExpired (time : Z) (s : Debounced) : Debounced * option Args :=
  if shouldInvoke time s then trailingEdge time s
  else (mkDebounced (lastArgs s) (lastCallTime s) (lastInvokeTime s)
          (setTimeout time (remainingWait time s)), None).

(** [cancel()] *)
Definition cancel (s : Debounced) : Debounced := mkDebounced None None 0 None.

End Debounce.

Arguments Debounced : clear implicits.

End Lodash.

(** ** useUpdateNote over time

    One mounted instance of the hook: its [titleRef], the debounced function
    kept in the [debouncedUpdate] ref and the flushes that have run so far.
    Time is in milliseconds; a pending timeout runs at the instant it is
    due. *)

Module UpdateNoteHook.

Import Lodash.

(** Editors are objects: a call passes a reference, and a flush reads the
    editor as it is when the flush runs. *)
Definition EditorRef := nat.

(** The surroundings of the hook: the content of every editor at every
    instant, and how the requests of a flush started at an instant
    settle. *)
Record Env := mkEnv {
  view : EditorRef -> Z -> Editor;
  service_at : Z -> NoteService;
  title_first_at : Z -> bool
}.

(** One invocation of the debounced function. *)
Record Flush := mkFlush {
  flush_time : Z;
  flush_editor : EditorRef;
  flush_noteId : ID;
  flush_trace : list (Effect Empty_set)
}.

Record Hook := mkHook {
  titleRef : string;
  debouncedUpdate : Debounced (EditorRef * ID);
  flushes : list Flush
}.

(** What the hook receives from its component. *)
Inductive Event :=
| UpdateNote (editor : option EditorRef) (noteId : ID)
| Unmount.

(** [options.debounceMs ?? 2000] *)
Definition debounce_wait (options : UpdateNoteOptions) : Z :=
  match debounceMs options with
  | Some ms => ms
  | None => 2000
  end.

(** The hook at its first render. *)
Definition mounted : Hook := mkHook titleRef_initial created [].

Section Running.

Variable options : UpdateNoteOptions.
Variable env : Env.

Let wait := debounce_wait options.

(** The body of the debounced function run at [time] on [(editor, noteId)]. *)
Definition flush_at (time : Z) (args : EditorRef * ID) (h : Hook) : Hook :=
  let '(editor, noteId) := args in
  let tr := trace (debouncedUpdate_body options (service_at env time)
                     (title_first_at env time) (titleRef h)
                     (Some (view env editor time)) noteId) in
  mkHook (titleRef_after (titleRef h) tr) (debouncedUpdate h)
    (flushes h ++ [mkFlush time editor noteId tr]).

(** The pending timeout runs, at the instant it is due. *)
Definition expire (h : Hook) : Hook :=
  match timerId (debouncedUpdate h) with
  | None => h
  | Some due =>
      let '(s, invoked) := timerExpired wait due (debouncedUpdate h) in
      let h' := mkHook (titleRef h) s (flushes h) in
      match invoked with
      | Some args => flush_at due args h'
      | None => h'
      end
  end.

Definition is_due (now : Z) (h : Hook) : bool :=
  match timerId (debouncedUpdate h) with
  | Some due => due <=? now
  | None => false
  end.

Definition expire_due (now : Z) (h : Hook) : Hook :=
  if is_due now h then expire h else h.

(** Time passes until [now]: a timeout that is due runs; when it restarts
    itself for the remaining wait and that is due as well, it runs
    again (see [elapse_settled]: nothing is due afterwards). *)
Definition elapse (now : Z) (h : Hook) : Hook :=
  expire_due now (expire_due now h).

(** [updateNote(editor)] as built for a render with [noteId]. *)
Definition updateNote (time : Z) (editor : option EditorRef) (noteId : ID)
    (h : Hook) : Hook :=
  match editor with
  | None => h    (* console.error('Editor is undefined in updateNote') *)
  | Some e =>
      mkHook (titleRef h) (debounced wait time (e, noteId) (debouncedUpdate h))
        (flushes h)
  end.

(** The cleanup of the mount effect. *)
Definition unmount (h : Hook) : Hook :=
  mkHook (titleRef h) (cancel (debouncedUpdate h)) (flushes h).

Definition handle (time : Z) (ev : Event) (h : Hook) : Hook :=
  match ev with
  | UpdateNote editor noteId => updateNote time editor noteId h
  | Unmount => unmount h
  end.

(** Events in the order they happen, each at its instant. Timeouts run
    on time here, and a timeout due at the instant of an event runs
    before it, the event being taken to come in a later task. *)
Fixpoint run (events : list (Z * Event)) (h : Hook) : Hook :=
  match events with
  | [] => h
  | (time, ev) :: rest => run rest (handle time ev (elapse time h))
  end.

(** The requests sent by the flushes of a hook, oldest first. *)
Definition requests (h : Hook) : list ServiceCall :=
  concat (map (fun f => calls_of (flush_trace f)) (flushes h)).

End Running.

(** [useUpdateNote(noteId, options)] for one render. *)
Definition useUpdateNote (noteId : ID) (options : UpdateNoteOptions)
    (cells : Cells Empty_set)
  : ActionState * (Z -> option EditorRef -> Hook -> Hook) :=
  (action_state cells, fun time editor => updateNote options time editor noteId).

End UpdateNoteHook.

(** ** NoteList *)

Module NoteList.

(** The [type] prop. *)
Inductive ListType := Workspace | Private.

Record NoteListProps := mkNoteListProps {
  notes : list Note;
  type : ListType;
  isLoading : option bool      (* optional prop, [false] when omitted *)
}.

(** What the component returns. *)
Inductive View :=
| NoteListSkeleton
| EmptyMessage (text : string)
| NoteListItems (items : list Note).

(** The callback given to [filter]. *)
Definition keep (type : ListType) (note : Note) : bool :=
  match type with
  | Workspace =>
      match access note with
      | WORKSPACE | SHARED => true
      | PRIVATE => false
      end
  | Private =>
      match access note with
      | PRIVATE => true
      | _ => false
      end
  end.

(** The callback given to [sort]: negative when [a] goes first. *)
Definition compare_updated (a b : Note) : Z := updatedDate b - updatedDate a.

Section Sort.

Context {A : Type}.
Variable cmp : A -> A -> Z.

(** [x] enters a sorted list in front of the first element it does not
    have to follow. *)
Fixpoint insert_sorted (x : A) (l : list A) : list A :=
  match l with
  | [] => [x]
  | y :: l' => if cmp x y <=? 0 then x :: l else y :: insert_sorted x l'
  end.

(** [Array.prototype.sort] with a comparator: a stable sort, so elements
    that compare equal keep the order they had. For a comparator that
    orders its arguments consistently, as [compare_updated] does, the
    result of a stable sort does not depend on the algorithm (see
    [stable_sorted_unique]); it is computed here by insertion. *)
Definition js_sort (l : list A) : list A := foldr insert_sorted [] l.

End Sort.

Definition filteredAndSortedNotes (notes : list Note) (type : ListType) : list Note :=
  js_sort compare_updated (filter (fun note => keep type note = true) notes).

Definition type_word (type : ListType) : string :=
  match type with
  | Workspace => "workspace"
  | Private => "private"
  end.

Definition render (props : NoteListProps) : View :=
  let isLoading := default false (isLoading props) in
  let filteredAndSortedNotes := filteredAndSortedNotes (notes props) (type props) in
  if isLoading || bool_decide (length (notes props) = 0%nat) then NoteListSkeleton
  else if bool_decide (length filteredAndSortedNotes = 0%nat)
  then EmptyMessage ("No " +:+ type_word (type props) +:+ " notes")
  else NoteListItems filteredAndSortedNotes.

(** The notes shown as list items. *)
Definition displayed (v : View) : list Note :=
  match v with
  | NoteListItems items => items
  | _ => []
  end.

End NoteList.

(** ** NoteList on the JavaScript heap

    Arrays and notes are objects. The [notes] prop is a reference to an
    array of references to notes; [filter] allocates a new array that shares
    the notes, and [sort] reorders the array it is called on. *)

Module NoteListHeap.

Import NoteList.

Definition loc := positive.

Record Heap := mkHeap {
  objects : gmap loc Note;
  arrays : gmap loc (list loc)
}.

(** The notes an array of references stands for; [None] on a dangling
    reference. *)
Definition deref (h : Heap) (refs : list loc) : option (list Note) :=
  mapM (fun r => objects h !! r) refs.

Definition read_array (h : Heap) (a : loc) : option (list Note) :=
  refs ← arrays h !! a; deref h refs.

(** [Array.prototype.filter]: the receiver is only read; the kept
    references go into a new array. *)
Definition array_filter (p : Note -> bool) (a : loc) (h : Heap) : option (Heap * loc) :=
  refs ← arrays h !! a;
  ns ← deref h refs;
  let kept := map fst (filter (fun rn => p (snd rn) = true) (zip refs ns)) in
  let out := fresh (dom (arrays h)) in
  Some (mkHeap (objects h) (<[out := kept]> (arrays h)), out).

(** [Array.prototype.sort]: the receiver is reordered in place and
    returned. *)
Definition array_sort (cmp : Note -> Note -> Z) (a : loc) (h : Heap) : option (Heap * loc) :=
  refs ← arrays h !! a;
  ns ← deref h refs;
  let sorted := map fst (js_sort (fun x y => cmp (snd x) (snd y)) (zip refs ns)) in
  Some (mkHeap (objects h) (<[a := sorted]> (arrays h)), a).

(** [notes.filter(...).sort(...)] as evaluated by a render. *)
Definition filteredAndSortedNotes_on_heap (notes : loc) (type : ListType) (h : Heap)
  : option (Heap * loc) :=
  '(h1, filtered) ← array_filter (keep type) notes h;
  array_sort compare_updated filtered h1.

End NoteListHeap.

(** ** ImageUploadModal *)

Module ImageUploadModal.

Record File := mkFile {
  name : string;
  type : string      (* MIME type *)
}.

(** The [useState] cells of the modal that the file handlers touch. *)
Record Modal := mkModal {
  isDragging : bool;
  selectedFile : option File;
  validationError : option string
}.

Definition initial_modal : Modal := mkModal false None None.

(** [file && file.type.startsWith('image/')] *)
Definition is_image (file : option File) : bool :=
  match file with
  | Some f => String.prefix "image/" (type f)
  | None => false
  end.

Definition handleDrop (files : list File) (m : Modal) : Modal :=
  let m := mkModal false (selectedFile m) (validationError m) in
  let file := head files in                       (* e.dataTransfer.files[0] *)
  if is_image file
  then mkModal (isDragging m) file None
  else mkModal (isDragging m) (selectedFile m) (Some "Please select an image file").

(** [e.target.files] may be [null]. *)
Definition handleFileSelect (files : option (list File)) (m : Modal) : Modal :=
  let file := files ≫= head in                    (* e.target.files?.[0] *)
  if is_image file
  then mkModal (isDragging m) file None
  else mkModal (isDragging m) (selectedFile m) (Some "Please select an image file").

Definition handleDragOver (m : Modal) : Modal :=
  mkModal true (selectedFile m) (validationError m).

Definition handleDragLeave (m : Modal) : Modal :=
  mkModal false (selectedFile m) (validationError m).

End ImageUploadModal.

(** ** Feed *)

Module Feed.

(** The two values the source filter takes in the component. *)
Inductive FeedSource := all | researchhub.

(** The [useState] cells of the component. Tabs are known by their id. *)
Record FeedState := mkFeedState {
  isCustomizing : bool;
  activeTab : string;
  isNavigating : bool;
  sourceFilter : FeedSource
}.

(** What the handlers do besides setting state. *)
Inductive FeedEffect :=
| RouterPush (href : string)
| Refresh.

(** The cells at the first render with [defaultTab]. *)
Definition first_render (defaultTab : string) : FeedState :=
  mkFeedState false defaultTab false all.

(** The effect that depends on [defaultTab]: it runs at mount and whenever
    the prop has changed. *)
Definition sync_defaultTab (defaultTab : string) (s : FeedState) : FeedState :=
  mkFeedState (isCustomizing s) defaultTab false (sourceFilter s).

Definition handleCustomizeChange (s : FeedState) : FeedState * list FeedEffect :=
  (mkFeedState (negb (isCustomizing s)) (activeTab s) (isNavigating s)
     (sourceFilter s), []).

Definition handleSaveComplete (s : FeedState) : FeedState * list FeedEffect :=
  (mkFeedState false (activeTab s) (isNavigating s) (sourceFilter s), [Refresh]).

(** Where a tab leads. *)
Definition tab_href (tab : string) : string :=
  if String.eqb tab "popular" then "/" else "/" +:+ tab.

Definition handleTabChange (tab : string) (s : FeedState)
  : FeedState * list FeedEffect :=
  (mkFeedState (isCustomizing s) tab true (sourceFilter s),
   [RouterPush (tab_href tab)]).

Definition handleSourceFilterChange (source : FeedSource) (s : FeedState)
  : FeedState * list FeedEffect :=
  (mkFeedState (isCustomizing s) (activeTab s) (isNavigating s) source, []).

(** [isLoading] is the flag of the useFeed hook. *)
Definition combinedIsLoading (isLoading : bool) (s : FeedState) : bool :=
  isLoading || isNavigating s.

Record Tab := mkTab {
  tab_id : string;
  tab_label : string
}.

Definition tabs (isAuthenticated : bool) : list Tab :=
  [mkTab "popular" "Trending"]
  ++ (if isAuthenticated then [mkTab "following" "Following"] else [])
  ++ [mkTab "latest" "Latest"].

(** What happens to the mounted component. *)
Inductive FeedEvent :=
| CustomizeChange
| SaveComplete
| TabChange (tab : string)
| SourceFilterChange (source : FeedSource)
| DefaultTabChanged (defaultTab : string).

Definition handle_event (ev : FeedEvent) (s : FeedState)
  : FeedState * list FeedEffect :=
  match ev with
  | CustomizeChange => handleCustomizeChange s
  | SaveComplete => handleSaveComplete s
  | TabChange tab => handleTabChange tab s
  | SourceFilterChange source => handleSourceFilterChange source s
  | DefaultTabChanged defaultTab => (sync_defaultTab defaultTab s, [])
  end.

Fixpoint run_feed (events : list FeedEvent) (s : FeedState)
  : FeedState * list FeedEffect :=
  match events with
  | [] => (s, [])
  | ev :: rest =>
      let '(s1, out1) := handle_event ev s in
      let '(s2, out2) := run_feed rest s1 in
      (s2, out1 ++ out2)
  end.

End Feed.

(** ** ImageUploadModal: uploading *)

Module ImageUploadFlow.

Import ImageUploadModal.

(** How [uploadAsset] of the useAssetUpload hook settles. *)
Inductive UploadOutcome :=
| Uploaded (absoluteUrl : string)
| UploadFailed.

Inductive ModalEffect :=
| UploadAsset (file : File) (entity : string)
| OnImageEmbed (imageUrl : string)
| OnClose.

(** [handleUpload]: nothing without a selected file; otherwise the
    validation error is cleared and the file uploaded; the failure of the
    upload is swallowed. The callbacks are the caller's and are taken to
    return normally. *)
Definition handleUpload (outcome : UploadOutcome) (m : Modal)
  : Modal * list ModalEffect :=
  match selectedFile m with
  | None => (m, [])
  | Some file =>
      let m' := mkModal (isDragging m) (selectedFile m) None in
      match outcome with
      | Uploaded absoluteUrl =>
          (m', [UploadAsset file "comment"; OnImageEmbed absoluteUrl; OnClose])
      | UploadFailed => (m', [UploadAsset file "comment"])
      end
  end.

(** [validationError || uploadError], the error shown. *)
Definition shown_error (uploadError : option string) (m : Modal) : option string :=
  if truthy_opt (validationError m) then validationError m else uploadError.

(** [!selectedFile || isUploading], whether the Upload button is off. *)
Definition upload_disabled (isUploading : bool) (m : Modal) : bool :=
  negb (bool_decide (is_Some (selectedFile m))) || isUploading.

(** [handleUpload] up to its [await]: nothing without a selected file;
    otherwise the validation error is cleared and the file is sent. *)
Definition handleUpload_request (m : Modal) : Modal * list ModalEffect :=
  match selectedFile m with
  | None => (m, [])
  | Some file =>
      (mkModal (isDragging m) (selectedFile m) None, [UploadAsset file "comment"])
  end.

(** [handleUpload] from its [await] on, when the upload has settled. *)
Definition handleUpload_settled (outcome : UploadOutcome) : list ModalEffect :=
  match outcome with
  | Uploaded absoluteUrl => [OnImageEmbed absoluteUrl; OnClose]
  | UploadFailed => []
  end.

(** What happens to the open modal. While an upload is awaited the modal
    stays open and its handlers can run, so the click on Upload and the
    settling of the upload are two events; the X and the Cancel button
    call [onClose]. *)
Inductive ModalEvent :=
| DragOver
| DragLeave
| Drop (files : list File)
| FileSelect (files : option (list File))
| UploadClick
| UploadSettles (outcome : UploadOutcome)
| CloseClick.

(** The modal and the number of uploads it awaits. *)
Definition handle_modal_event (ev : ModalEvent) (st : Modal * nat)
  : (Modal * nat) * list ModalEffect :=
  let '(m, awaited) := st in
  match ev with
  | DragOver => ((handleDragOver m, awaited), [])
  | DragLeave => ((handleDragLeave m, awaited), [])
  | Drop files => ((handleDrop files m, awaited), [])
  | FileSelect files => ((handleFileSelect files m, awaited), [])
  | UploadClick =>
      let '(m', out) := handleUpload_request m in
      ((m', (awaited + length out)%nat), out)
  | UploadSettles outcome =>
      match awaited with
      | O => ((m, O), [])     (* no upload is awaited: nothing settles *)
      | S awaited' => ((m, awaited'), handleUpload_settled outcome)
      end
  | CloseClick => ((m, awaited), [OnClose])
  end.

Fixpoint run_awaiting (events : list ModalEvent) (st : Modal * nat)
  : (Modal * nat) * list ModalEffect :=
  match events with
  | [] => (st, [])
  | ev :: rest =>
      let '(st1, out1) := handle_modal_event ev st in
      let '(st2, out2) := run_awaiting rest st1 in
      (st2, out1 ++ out2)
  end.

(** The events on a modal that awaits no upload. *)
Definition run_modal (events : list ModalEvent) (m : Modal)
  : Modal * list ModalEffect :=
  let '((m', _), out) := run_awaiting events (m, O) in (m', out).

End ImageUploadFlow.

(** ** FlagContentModal *)

Module FlagContent.

Section WithNumber.

(** [Number(commentId)] is left to JavaScript: its result type and the
    conversion are parameters. *)
Variable JsNumber : Type.
Variable Number : string -> JsNumber.

(** The argument of [flag]. *)
Record FlagInput := mkFlagInput {
  documentType : string;
  fl_documentId : string;
  reason : string;
  fl_commentId : option JsNumber
}.

Record FlagProps := mkFlagProps {
  documentId : string;
  workType : string;
  commentId : option string
}.

Inductive FlagEffect :=
| Flag (input : FlagInput)
| ToastSuccess (message : string)
| ToastError (message : string)
| CloseModal.

(** [handleSubmit]; [flag_resolves] tells whether the request made by
    [flag] succeeds. The toast functions and [onClose] are taken to
    return normally. *)
Definition handleSubmit (props : FlagProps) (selectedReason : option string)
    (flag_resolves : FlagInput -> bool) : list FlagEffect :=
  if negb (truthy_opt selectedReason) then []
  else
    let input :=
      mkFlagInput
        (if String.eqb (workType props) "paper" then "paper" else "researchhubpost")
        (documentId props)
        (default "" selectedReason)
        (if truthy_opt (commentId props)
         then Some (Number (default "" (commentId props)))
         else None) in
    if flag_resolves input
    then [Flag input; ToastSuccess "Content reported successfully"; CloseModal]
    else [Flag input; ToastError "Failed to report content"].

End WithNumber.

Arguments mkFlagInput {JsNumber}.
Arguments documentType {JsNumber}.
Arguments fl_documentId {JsNumber}.
Arguments reason {JsNumber}.
Arguments fl_commentId {JsNumber}.
Arguments Flag {JsNumber}.
Arguments ToastSuccess {JsNumber}.
Arguments ToastError {JsNumber}.
Arguments CloseModal {JsNumber}.
Arguments handleSubmit {JsNumber}.

End FlagContent.

(** ** ShareModal: the kind of document a shared URL stands for *)

Module ShareModal.

(** [hay.includes(needle)] *)
Fixpoint includes (needle hay : string) : bool :=
  String.prefix needle hay
  || match hay with
     | EmptyString => false
     | String _ rest => includes needle rest
     end.

Definition getShareType (url : string) : string :=
  if includes "/post/" url then "Preprint"
  else if includes "/paper/" url then "Paper"
  else if includes "/fund/" url then "Proposal"
  else if includes "/grant/" url then "RFP"
  else "".

(** The text of the title of the USER_SHARED_DOCUMENT configuration. *)
Definition shared_document_title (url : string) : string :=
  "Share " +:+ getShareType url.

End ShareModal.

(** ** FeaturesSection *)

Module Features.

Record Action := mkAction {
  text : string;
  action_description : string
}.

Record Feature := mkFeature {
  feature_id : string;
  feature_title : string;
  subtitle : string;
  description : string;
  benefits : list string;
  primaryAction : Action;
  secondaryAction : option Action;
  iconName : string;
  gradient : string
}.

Definition features : list Feature :=
  [ mkFeature "fund" "Fund" "Accelerate scientific discovery"
      "Connect researchers with funding opportunities and enable philanthropists to directly support groundbreaking experiments."
      ["Transparent funding allocation"; "Direct impact tracking";
       "Tax-deductible donations"; "Real-time progress updates"]
      (mkAction "Give research funding"
         "Support research as a donor or philanthropist")
      (Some (mkAction "Request funding" "Get crowdfunding for your experiments"))
      "fund" "from-[#3971FF] to-[#4A7FFF]";
    mkFeature "earn" "Earn" "Get paid for peer review"
      "Earn meaningful compensation for your valuable peer review contributions to open access scientific literature."
      ["Earn $150 in RSC per review"; "Choose preprints to review";
       "Get feedback from editors"; "Build your reputation"]
      (mkAction "Start reviewing" "Begin earning through peer review")
      None
      "earn1" "from-[#3971FF] to-[#4A7FFF]";
    mkFeature "publish" "Publish" "Champion open science"
      "Publish in the ResearchHub Journal with transparent peer review, low fees, and a commitment to open access."
      ["Only $300 APC fee"; "Open peer review process";
       "Immediate preprint option"; "Reviewers paid $150 in RSC"]
      (mkAction "Submit paper" "Publish your research with open access")
      None
      "rhJournal2" "from-[#3971FF] to-[#4A7FFF]" ].

(** [getClickHandler]: the route the returned handler pushes, [None] for
    the handler that does nothing. *)
Definition getClickHandler (featureId : string) (isPrimary : bool) : option string :=
  if String.eqb featureId "fund"
  then Some (if isPrimary then "/fund/grants" else "/fund/needs-funding")
  else if String.eqb featureId "earn" then Some "/earn"
  else if String.eqb featureId "publish" then Some "/paper/create/pdf"
  else None.

(** [useState(0)] *)
Definition activeFeature_initial : nat := 0.

(** The navigation buttons: one per feature, each setting its index. *)
Definition navigation : list nat := seq 0 (length features).

(** A button of the card: its text and what a click pushes. *)
Record CardButton := mkCardButton {
  button_text : string;
  button_route : option string
}.

(** The buttons of the card of the active feature; [None] when
    [features[activeFeature]] is undefined (the render throws). *)
Definition card_buttons (activeFeature : nat) : option (list CardButton) :=
  match features !! activeFeature with
  | Some feature =>
      match secondaryAction feature with
      | Some secondary =>
          Some [mkCardButton (text (primaryAction feature))
                  (getClickHandler (feature_id feature) true);
                mkCardButton (text secondary)
                  (getClickHandler (feature_id feature) false)]
      | None =>
          Some [mkCardButton (text (primaryAction feature))
                  (getClickHandler (feature_id feature) true)]
      end
  | None => None
  end.

(** The active feature after clicks on navigation buttons. *)
Definition after_clicks (clicks : list nat) : nat :=
  List.last clicks activeFeature_initial.

End Features.

(** ** GrantStatusSection *)

Module GrantStatus.

(** Modelled from the spec: [Work] of [@/types/work] is not part of the
    sources; only the path [work.note?.post?.grant] that the component
    reads is kept, every step of it optional. *)
Record Grant := mkGrant {
  grant_status : option string;
  endDate : option string
}.

Record Post := mkPost { grant : option Grant }.
Record WorkNote := mkWorkNote { post : option Post }.
Record Work := mkWork { work_note : option WorkNote }.

(** [work.note?.post?.grant] *)
Definition grant_of (work : Work) : option Grant :=
  match work_note work with
  | Some note =>
      match post note with
      | Some p => grant p
      | None => None
      end
  | None => None
  end.

(** [grant?.status] and [grant?.endDate] *)
Definition status_of (work : Work) : option string :=
  match grant_of work with
  | Some g => grant_status g
  | None => None
  end.

Definition endDate_of (work : Work) : option string :=
  match grant_of work with
  | Some g => endDate g
  | None => None
  end.

Record StatusView := mkStatusView {
  dot : string;
  label : string;
  closing_line : option string
}.

Section WithFormat.

(** [format(new Date(endDate), 'MMMM d, yyyy')] of date-fns, [None] when
    it throws on an invalid date. *)
Variable format_date : string -> option string.

(** What the component renders; [None] when the render throws. *)
Definition GrantStatusSection (work : Work) : option StatusView :=
  let isOpen :=
    bool_decide (status_of work = Some "OPEN") in
  if negb (truthy_opt (endDate_of work))
  then Some (mkStatusView "bg-gray-400" "Unknown" None)
  else
    match format_date (default "" (endDate_of work)) with
    | Some date =>
        Some (mkStatusView
                (if isOpen then "bg-emerald-500" else "bg-rose-500")
                (if isOpen then "Accepting Applications" else "Closed")
                (Some (if isOpen then "Closes " +:+ date
                       else "Closed on " +:+ date)))
    | None => None
    end.

End WithFormat.

End GrantStatus.

(** ** NonprofitDisplay *)

Module Nonprofit.

(** [s.substring(start, end)]: both indices are clamped to the length of
    [s] and swapped when out of order; without [end] the rest of [s].
    A string is the sequence of its code units. *)
Definition js_substring (s : string) (start : nat) (finish : option nat) : string :=
  let len := String.length s in
  let a := Nat.min start len in
  let b := Nat.min (default len finish) len in
  String.substring (Nat.min a b) (Nat.max a b - Nat.min a b) s.

(** The EIN as displayed. *)
Definition display_ein (ein : string) : string :=
  (js_substring ein 0%nat (Some 2%nat) +:+ "-") +:+ js_substring ein 2%nat None.

(** [(!readOnly || allowClear)], whether the clear button is shown. *)
Definition shows_clear (readOnly allowClear : bool) : bool :=
  negb readOnly || allowClear.

End Nonprofit.

(** ** The loading/error pattern of the hook actions *)

Module Pattern.

(** How the service settles a request: the rejection, if it rejects. *)
Definition rejection (svc : NoteService) (c : ServiceCall) : option Thrown :=
  let rejected {A} (o : Outcome A) : option Thrown :=
    match o with
    | Resolved _ => None
    | Rejected t => Some t
    end in
  match c with
  | GetNote i => rejected (getNote svc i)
  | CreateNote r => rejected (createNote svc r)
  | UpdateNoteContent r => rejected (updateNoteContent svc r)
  | UpdateNoteTitle r => rejected (updateNoteTitle svc r)
  | DeleteNote i => rejected (deleteNote svc i)
  | MakePrivate i => rejected (makePrivate svc i)
  | UpdateNotePermissions i o a => rejected (updateNotePermissions svc i o a)
  end.

(** The pattern of a promise-returning action: loading on and error
    cleared at the start; the requests one after the other, each sent only
    when the one before it resolved; on success at most the response stored
    and the action returns; on failure of the last request sent, the error
    cell set to a new [Error] carrying the [NoteError] message or the
    fallback, and that error thrown; loading off at the end in both
    cases. *)
Definition follows_pattern {N A} (svc : NoteService) (fallback : string)
    (m : Async N A) : Prop :=
  exists (before : list ServiceCall) (last : ServiceCall) (mid : list (Effect N)),
    trace m = SetIsLoading true :: SetError None ::
              map Call (before ++ [last]) ++ mid ++ [SetIsLoading false]
    /\ Forall (fun c => rejection svc c = None) before
    /\ match rejection svc last with
       | None =>
           (exists a, result m = Return a)
           /\ (mid = [] \/ exists n, mid = [SetNote (Some n)])
       | Some err =>
           let e := PlainError (note_error_message err fallback) in
           result m = Throw (ThrownError e) /\ mid = [SetError (Some e)]
       end.

Definition is_state_setter {N} (e : Effect N) : bool :=
  match e with
  | SetNote _ | SetIsLoading _ | SetError _ => true
  | _ => false
  end.

(** What the debounced update of useUpdateNote does instead. With a falsy
    editor or noteId it only logs. Otherwise: loading on and error cleared
    at the start; all its requests sent at once; when one of them rejects,
    the error cell set to a new [Error] carrying the [NoteError] message or
    the fallback and the error logged, but nothing thrown; loading off as
    the last state change; only the title callback may still run after
    that. *)
Definition follows_debounced_pattern (svc : NoteService) (fallback : string)
    (editor : option Editor) (noteId : ID) (m : Async Empty_set unit) : Prop :=
  result m = Return tt /\
  if bool_decide (is_Some editor) && truthy_id noteId then
    exists (mid late : list (Effect Empty_set)),
      trace m = SetIsLoading true :: SetError None :: mid
                ++ [SetIsLoading false] ++ late
      /\ calls_of mid <> []
      /\ Forall (fun e => exists t, e = OnTitleUpdate t) late
      /\ ((Forall (fun c => rejection svc c = None) (calls_of mid)
           /\ Forall (fun e => is_state_setter e = false) mid)
          \/ (exists c err,
                c ∈ calls_of mid /\ rejection svc c = Some err /\
                let e := PlainError (note_error_message err fallback) in
                exists mid', mid = mid' ++ [SetError (Some e);
                                             ConsoleError "Error updating note:"]
                  /\ Forall (fun e => is_state_setter e = false) mid'))
  else trace m = [ConsoleError guard_message].

(** The requests of duplicateNote: the original is fetched, the copy
    created, and the body copied when the original has one. *)
Definition duplicate_requests (noteId organizationSlug : string)
    (originalNote : NoteWithContent) (newNote : Note) : list ServiceCall :=
  [GetNote noteId;
   CreateNote (mkCreateNoteReq (title (nwc_note originalNote) +:+ " (Copy)")
                 (access (nwc_note originalNote)) organizationSlug)]
  ++ (if truthy_opt (content originalNote) || truthy_opt (contentJson originalNote)
      then [UpdateNoteContent
              (mkUpdateContentReq (id newNote) (content originalNote)
                 (plainText originalNote) (contentJson originalNote))]
      else []).

End Pattern.

(** ** Flushes one after the other *)

Module Flushes.

(** What one flush meets: the editor as it is then, the noteId it was
    called with, and how its requests settle. *)
Record FlushInput := mkFlushInput {
  fi_service : NoteService;
  fi_title_first : bool;
  fi_editor : Editor;
  fi_noteId : ID
}.

Definition flush_of (options : UpdateNoteOptions) (titleRef : string)
    (fi : FlushInput) : Async Empty_set unit :=
  debouncedUpdate_body options (fi_service fi) (fi_title_first fi) titleRef
    (Some (fi_editor fi)) (fi_noteId fi).

(** The traces of successive flushes of one hook, [titleRef] being carried
    from each flush to the next. *)
Fixpoint run_flushes (options : UpdateNoteOptions) (titleRef : string)
    (inputs : list FlushInput) : list (list (Effect Empty_set)) :=
  match inputs with
  | [] => []
  | fi :: rest =>
      let tr := trace (flush_of options titleRef fi) in
      tr :: run_flushes options (titleRef_after titleRef tr) rest
  end.

(** [titleRef] after these flushes. *)
Fixpoint titleRef_after_flushes (options : UpdateNoteOptions) (titleRef : string)
    (inputs : list FlushInput) : string :=
  match inputs with
  | [] => titleRef
  | fi :: rest =>
      titleRef_after_flushes options
        (titleRef_after titleRef (trace (flush_of options titleRef fi))) rest
  end.

(** The title a flush extracts from its editor. *)
Definition title_of (fi : FlushInput) : string :=
  or_default (documentTitle (fi_editor fi)) "".

Definition sends_title (tr : list (Effect Empty_set)) : Prop :=
  exists r, UpdateNoteTitle r ∈ calls_of tr.

End Flushes.

(** ** Bursts of calls of the update function *)

Module Burst.

Import UpdateNoteHook.

(** One call [updateNote(editor)] made at [call_time] by a render with
    [call_noteId]. *)
Record UpdateCall := mkUpdateCall {
  call_time : Z;
  call_editor : EditorRef;
  call_noteId : ID
}.



(** The calls [rest] follow the call [prev] within its debounce window:
    each comes while the wait started by the call before it is still
    running, that is, not before that call and less than [wait] after
    it. *)
Fixpoint within_window (wait : Z) (prev : UpdateCall) (rest : list UpdateCall)
  : Prop :=
  match rest with
  | [] => True
  | c :: rest' =>
      call_time prev <= call_time c < call_time prev + wait
      /\ within_window wait c rest'
  end.

(** The narrower reading: the calls [first :: rest] are in the order of
    their instants and the last comes less than [wait] after the first. *)
Definition within_fixed_window (wait : Z) (first : UpdateCall)
    (rest : list UpdateCall) : Prop :=
  Sorted Z.le (map call_time (first :: rest))
  /\ call_time (List.last rest first) - call_time first < wait.



End Burst.

(** ** What a file handler of ImageUploadModal did *)

Module ModalSpec.

Import ImageUploadModal.

(** [m'] is the modal after a handler picked [file] in the modal [m]: the
    file is selected and the error cleared exactly when it is an image;
    otherwise the selection stays and the error is set. *)
Definition chosen (file : option File) (m m' : Modal) : Prop :=
  ((exists f, file = Some f /\ selectedFile m' = Some f /\ validationError m' = None)
   <-> (exists f, file = Some f /\ String.prefix "image/" (type f) = true))
  /\ (is_image file = true ->
      selectedFile m' = file /\ validationError m' = None)
  /\ (is_image file = false ->
      selectedFile m' = selectedFile m
      /\ validationError m' = Some "Please select an image file").

End ModalSpec.

(** ** Order and validity *)

Module Order.

Import NoteList NoteListHeap.

(** [a] may come before [b] for the comparator [cmp]. *)
Definition before {A} (cmp : A -> A -> Z) (a b : A) : Prop := cmp a b <= 0.

(** Newest first. *)
Definition not_older (a b : Note) : Prop := updatedDate b <= updatedDate a.

(** References paired with the notes they point to. *)
Definition valid (h : Heap) (pairs : list (loc * Note)) : Prop :=
  Forall (fun rn => objects h !! fst rn = Some (snd rn)) pairs.

End Order.

(** ** Sample data *)

Module Sample.

Import UpdateNoteHook.

Definition a_note : Note := mkNote (IdNum 7) "Plan" WORKSPACE 100 200.

Definition a_note_with_content : NoteWithContent :=
  mkNoteWithContent a_note (Some "<p>x</p>") (Some "{}") (Some "x").

Definition a_content : NoteContent :=
  mkNoteContent (IdNum 7) (Some "<p>x</p>") (Some "x") (Some "{}").

(** A service that resolves every request. *)
Definition svc_ok : NoteService :=
  mkNoteService
    (fun _ => Resolved a_note_with_content)
    (fun _ => Resolved a_note)
    (fun r => Resolved (mkNoteContent (uc_note r) (uc_full_src r)
                          (uc_plain_text r) (uc_full_json r)))
    (fun _ => Resolved tt)
    (fun _ => Resolved a_note)
    (fun _ => Resolved a_note)
    (fun _ _ _ => Resolved true).

(** A service whose content update rejects with a [NoteError]. *)
Definition svc_content_fails : NoteService :=
  mkNoteService
    (fun _ => Resolved a_note_with_content)
    (fun _ => Resolved a_note)
    (fun _ => Rejected (ThrownError (NoteError "Request failed")))
    (fun _ => Resolved tt)
    (fun _ => Resolved a_note)
    (fun _ => Resolved a_note)
    (fun _ _ _ => Resolved true).

(** A service whose title update rejects. *)
Definition svc_title_fails : NoteService :=
  mkNoteService
    (fun _ => Resolved a_note_with_content)
    (fun _ => Resolved a_note)
    (fun r => Resolved (mkNoteContent (uc_note r) (uc_full_src r)
                          (uc_plain_text r) (uc_full_json r)))
    (fun _ => Rejected (ThrownError (NoteError "Request failed")))
    (fun _ => Resolved a_note)
    (fun _ => Resolved a_note)
    (fun _ _ _ => Resolved true).

Definition an_editor : Editor := mkEditor "<h1>Plan</h1>" "Plan" "{}" (Some "Plan").

Definition some_options : UpdateNoteOptions := mkUpdateNoteOptions true None.

Definition an_env : Env :=
  mkEnv (fun _ _ => an_editor) (fun _ => svc_ok) (fun _ => true).




Definition a_later_flush : Flushes.FlushInput :=
  Flushes.mkFlushInput svc_ok true an_editor (IdNum 7).

(** A flush of the same editor whose title request rejects. *)
Definition a_failing_flush : Flushes.FlushInput :=
  Flushes.mkFlushInput svc_title_fails true an_editor (IdNum 7).

(** The editor after its title was changed to Draft, and a flush of it. *)
Definition a_renamed_editor : Editor :=
  mkEditor "<h1>Draft</h1>" "Draft" "{}" (Some "Draft").

Definition a_flush_of_another_title : Flushes.FlushInput :=
  Flushes.mkFlushInput svc_ok true a_renamed_editor (IdNum 7).


Definition a_private_note : Note := mkNote (IdNum 8) "Diary" PRIVATE 100 300.
Definition a_shared_note : Note := mkNote (IdNum 9) "Minutes" SHARED 100 250.

Definition some_notes : list Note := [a_note; a_private_note; a_shared_note].

(** A heap with the three notes and the array that holds them. *)
Definition a_heap : NoteListHeap.Heap :=
  NoteListHeap.mkHeap
    (<[10%positive := a_note]> (<[11%positive := a_private_note]>
       (<[12%positive := a_shared_note]> ∅)))
    (<[1%positive := [10%positive; 11%positive; 12%positive]]> ∅).

Definition a_picture : ImageUploadModal.File :=
  ImageUploadModal.mkFile "figure.png" "image/png".

Definition a_document : ImageUploadModal.File :=
  ImageUploadModal.mkFile "paper.pdf" "application/pdf".

End Sample.

(** ** Further notions about the hooks *)

Module HookSpec.

Import Lodash UpdateNoteHook Burst Pattern.

(** [all] is what happens to the state cells of a hook while one
    invocation runs: the effects of that invocation, [own], interleaved
    with those of the other invocations in flight, [others], each in its
    own order. An invocation gives way to the others where it awaits. *)
Inductive interleaves {E : Type} : list E -> list E -> list E -> Prop :=
| interleaves_nil : interleaves [] [] []
| interleaves_own e own others all :
    interleaves own others all -> interleaves (e :: own) others (e :: all)
| interleaves_other e own others all :
    interleaves own others all -> interleaves own (e :: others) (e :: all).

(** The other invocations set no state cell meanwhile: they only send
    requests, log or call back. *)
Definition set_no_state {N} (others : list (Effect N)) : Prop :=
  Forall (fun e => is_state_setter e = false) others.

(** How a promise-returning action leaves the state cells, whatever they
    held before, when no other invocation sets them while it runs: loading
    off; on success no error; on failure the thrown error in the error
    cell and the note cell as it was. *)
Definition ends_settled {N A} (m : Async N A) : Prop :=
  forall (cells : Cells N) (others all : list (Effect N)),
    interleaves (trace m) others all ->
    set_no_state others ->
    let cells' := apply_effects cells all in
    c_isLoading cells' = false
    /\ match result m with
       | Return _ => c_error cells' = None
       | Throw t =>
           exists e, t = ThrownError e
                     /\ c_error cells' = Some e
                     /\ c_note cells' = c_note cells
       end.

(** The requests of a trace are of the three kinds duplicateNote uses. *)
Definition only_copies (c : ServiceCall) : bool :=
  match c with
  | GetNote _ | CreateNote _ | UpdateNoteContent _ => true
  | _ => false
  end.

(** The arguments the title callback was called with, in order. *)
Definition title_callbacks {N} (tr : list (Effect N)) : list string :=
  omap (fun e => match e with OnTitleUpdate t => Some t | _ => None end) tr.

Definition resolves {A} (o : Outcome A) : bool :=
  match o with
  | Resolved _ => true
  | Rejected _ => false
  end.

(** What happens to a mounted hook, in the order it happens: the update
    function is called, or the JavaScript runtime runs the callback of the
    pending timeout, at an instant of its choice. Here nothing is assumed
    about how late a timeout runs or about which of a call and a timeout of
    the same instant comes first: the order of the list says it. *)
Inductive Occurrence :=
| Called (c : UpdateCall)
| TimerRuns (time : Z).

(** [timerExpired] of the pending timeout runs at [time]. A timeout never
    runs before it is due; without a pending timeout, or before it is due,
    nothing happens. *)
Definition timer_runs (options : UpdateNoteOptions) (env : Env) (time : Z)
    (h : Hook) : Hook :=
  match timerId (debouncedUpdate h) with
  | None => h
  | Some due =>
      if due <=? time
      then
        let '(s, invoked) :=
          timerExpired (debounce_wait options) time (debouncedUpdate h) in
        let h' := mkHook (titleRef h) s (flushes h) in
        match invoked with
        | Some args => flush_at options env time args h'
        | None => h'
        end
      else h
  end.

Definition occur (options : UpdateNoteOptions) (env : Env) (o : Occurrence)
    (h : Hook) : Hook :=
  match o with
  | Called c =>
      updateNote options (call_time c) (Some (call_editor c)) (call_noteId c) h
  | TimerRuns time => timer_runs options env time h
  end.

Fixpoint play (options : UpdateNoteOptions) (env : Env) (os : list Occurrence)
    (h : Hook) : Hook :=
  match os with
  | [] => h
  | o :: rest => play options env rest (occur options env o h)
  end.

(** Each call is followed, before the next call, by the run of the
    timeout, at the instant paired with the call. *)
Definition answered_in_turn (calls : list (UpdateCall * Z)) : list Occurrence :=
  flat_map (fun ct => [Called (fst ct); TimerRuns (snd ct)]) calls.

(** The instant paired with the call is not before its timeout is due. *)
Definition not_early (wait : Z) (ct : UpdateCall * Z) : Prop :=
  call_time (fst ct) + Z.max 0 wait <= snd ct.

(** When, on which editor and for which note a flush ran. *)
Definition flush_key (f : Flush) : Z * EditorRef * ID :=
  (flush_time f, flush_editor f, flush_noteId f).

(** The flush of a call whose timeout runs at the instant paired with
    it. *)
Definition own_flush (ct : UpdateCall * Z) : Z * EditorRef * ID :=
  (snd ct, call_editor (fst ct), call_noteId (fst ct)).

(** The titles of the title requests among some requests, in order. *)
Definition titles_of (requests : list ServiceCall) : list string :=
  omap (fun c => match c with
                 | UpdateNoteTitle r => Some (ut_title r)
                 | _ => None
                 end) requests.

(** Each title differs from the one before it, the first from [prev]. *)
Fixpoint changes (prev : string) (titles : list string) : Prop :=
  match titles with
  | [] => True
  | t :: rest => t <> prev /\ changes t rest
  end.

(** Is the event a call of the update function with an editor. *)
Definition is_update (ev : Event) : bool :=
  match ev with
  | UpdateNote (Some _) _ => true
  | _ => false
  end.

(** titleRef holds the title last requested, and no title request
    repeats the title of the one before it; the first is not the empty
    title a hook starts with. *)
Definition titles_in_step (h : Hook) : Prop :=
  changes titleRef_initial (titles_of (requests h))
  /\ titleRef h = List.last (titles_of (requests h)) titleRef_initial.

(** The number of calls of the update function with an editor. *)
Definition update_calls (events : list (Z * Event)) : nat :=
  length (filter (fun te => is_update (snd te) = true) events).

(** One when a call is recorded and not yet flushed, zero otherwise. *)
Definition recorded (h : Hook) : nat :=
  match lastArgs (debouncedUpdate h) with
  | Some _ => 1
  | None => 0
  end.

End HookSpec.

(** ** More sample data *)

Module MoreSample.

Import Sample.

(** A note of which only the plain text is kept. *)
Definition a_plain_note : NoteWithContent :=
  mkNoteWithContent a_note None (Some "") (Some "x").

(** A service whose notes have plain text only. *)
Definition svc_plain : NoteService :=
  mkNoteService
    (fun _ => Resolved a_plain_note)
    (fun _ => Resolved a_note)
    (fun r => Resolved (mkNoteContent (uc_note r) (uc_full_src r)
                          (uc_plain_text r) (uc_full_json r)))
    (fun _ => Resolved tt)
    (fun _ => Resolved a_note)
    (fun _ => Resolved a_note)
    (fun _ _ _ => Resolved true).

(** A service that has every note but note 8. *)
Definition svc_one_missing : NoteService :=
  mkNoteService
    (fun noteId => if String.eqb noteId "8"
                   then Rejected (ThrownError (NoteError "Not found"))
                   else Resolved a_note_with_content)
    (fun _ => Resolved a_note)
    (fun r => Resolved (mkNoteContent (uc_note r) (uc_full_src r)
                          (uc_plain_text r) (uc_full_json r)))
    (fun _ => Resolved tt)
    (fun _ => Resolved a_note)
    (fun _ => Resolved a_note)
    (fun _ _ _ => Resolved true).

End MoreSample.

(** ** Notions used to state the properties of the components *)

Module ComponentSpec.

Import Feed ImageUploadModal ImageUploadFlow.

(** The events that change the [defaultTab] prop of the feed. *)
Definition is_default_change (ev : FeedEvent) : bool :=
  match ev with
  | DefaultTabChanged _ => true
  | _ => false
  end.

(** The upload requests among the effects of the modal. *)
Definition uploads (out : list ModalEffect) : list (File * string) :=
  omap (fun eff => match eff with
                   | UploadAsset file entity => Some (file, entity)
                   | _ => None
                   end) out.

(** Every embedding answers an upload request made before it and not yet
    answered, [awaited] counting the requests still open at the start, and
    is followed at once by the closing; a closing may also come alone. *)
Fixpoint answered (awaited : nat) (out : list ModalEffect) : Prop :=
  match out with
  | [] => True
  | UploadAsset _ _ :: rest => answered (S awaited) rest
  | OnImageEmbed _ :: OnClose :: rest =>
      match awaited with
      | S awaited' => answered awaited' rest
      | O => False
      end
  | OnImageEmbed _ :: _ => False
  | OnClose :: rest => answered awaited rest
  end.

Definition is_embed (eff : ModalEffect) : bool :=
  match eff with OnImageEmbed _ => true | _ => false end.

Definition is_close (eff : ModalEffect) : bool :=
  match eff with OnClose => true | _ => false end.

Definition is_close_click (ev : ModalEvent) : bool :=
  match ev with CloseClick => true | _ => false end.

(** How many elements pass the test. *)
Definition count {A} (test : A -> bool) (l : list A) : nat :=
  length (List.filter test l).

(** The selected file, when there is one, is an image. *)
Definition holds_image (m : Modal) : Prop :=
  forall file, selectedFile m = Some file -> is_image (Some file) = true.

(** [seg] occurs somewhere in [url]. *)
Definition occurs (seg url : string) : Prop :=
  exists before after, url = before +:+ seg +:+ after.

End ComponentSpec.

Module ComponentSample.

Import Feed ImageUploadModal ImageUploadFlow GrantStatus.

(** A feed on the trending tab. *)
Definition a_feed : FeedState := first_render "popular".

(** A grant that is open but has no end date. *)
Definition an_open_work : Work :=
  mkWork (Some (mkWorkNote (Some (mkPost (Some (mkGrant (Some "OPEN") None)))))).

(** A formatter that accepts every date and prints it as it is. *)
Definition any_format (date : string) : option string := Some date.

(** A grant open until the end of 2030. *)
Definition a_dated_work : Work :=
  mkWork (Some (mkWorkNote (Some (mkPost (Some
    (mkGrant (Some "OPEN") (Some "2030-12-31T00:00:00Z"))))))).

(** A modal in which a picture is selected. *)
Definition a_modal_with_picture : Modal :=
  mkModal false (Some Sample.a_picture) None.

(** Autosave without wait, and two calls 5 ms apart, the timeout of the
    first running 5 ms late, just before the second call. *)
Definition no_wait_options : UpdateNoteOptions := mkUpdateNoteOptions true (Some 0).

Definition two_answered_calls : list (Burst.UpdateCall * Z) :=
  [(Burst.mkUpdateCall 100 1%nat (IdNum 7), 105);
   (Burst.mkUpdateCall 105 2%nat (IdNum 7), 105)].

(** A report on a comment of a grant. *)
Definition some_flag_props : FlagContent.FlagProps :=
  FlagContent.mkFlagProps "42" "grant" (Some "9").

End ComponentSample.

(** * Properties *)

(** ** The monad *)

Module AsyncFacts.

Lemma calls_of_app {N} (tr1 tr2 : list (Effect N)) :
  calls_of (tr1 ++ tr2) = calls_of tr1 ++ calls_of tr2.
Proof. unfold calls_of. apply omap_app. Qed.

Lemma calls_of_map_Call {N} (cs : list ServiceCall) :
  calls_of (map (@Call N) cs) = cs.
Proof.
  induction cs as [|c cs IH]; [reflexivity|].
  cbn. unfold calls_of in IH. now rewrite IH.
Qed.

Lemma apply_effects_app {N} (c : Cells N) (tr1 tr2 : list (Effect N)) :
  apply_effects c (tr1 ++ tr2) = apply_effects (apply_effects c tr1) tr2.
Proof. unfold apply_effects. apply foldl_app. Qed.

Lemma or_default_some (s : string) : or_default (Some s) "" = s.
Proof. destruct s; reflexivity. Qed.

End AsyncFacts.

(** ** The promise-returning actions *)

Module HookFacts.

Import Pattern.

(** Unfolds the monad down to traces and results. *)
Ltac run_async :=
  cbv [mbind mret async_bind async_ret bind ret emit throw await
       try_catch_finally trace result fst snd app].

(** Close the pattern of an action with a single request [c], of which
    [E] records how it settles; [stored] is what a success leaves between
    the request and the end. *)
Ltac single_resolved c stored E :=
  exists [], c; cbn [rejection app map]; exists stored; rewrite E; run_async;
  split; [reflexivity | split; [constructor | split;
    [eexists; reflexivity
    | first [left; reflexivity | right; eexists; reflexivity]]]].

Ltac single_rejected c E :=
  exists [], c; cbn [rejection app map]; eexists; rewrite E; run_async;
  split; [| split; [constructor | split; reflexivity]]; reflexivity.

Section WithService.

Variable svc : NoteService.

Lemma createNote_pattern (params : CreateNoteInput) :
  follows_pattern svc "Failed to create note" (createNote_action svc params).
Proof.
  unfold follows_pattern, createNote_action.
  set (req := mkCreateNoteReq _ _ _).
  destruct (createNote svc req) as [response|err] eqn:E.
  - single_resolved (CreateNote req) [SetNote (Some response)] E.
  - single_rejected (CreateNote req) E.
Qed.

Lemma updateNoteContent_pattern (params : UpdateNoteContentInput) :
  follows_pattern svc "Failed to update note content"
    (updateNoteContent_action svc params).
Proof.
  unfold follows_pattern, updateNoteContent_action.
  set (req := mkUpdateContentReq _ _ _ _).
  destruct (updateNoteContent svc req) as [response|err] eqn:E.
  - single_resolved (UpdateNoteContent req) [SetNote (Some response)] E.
  - single_rejected (UpdateNoteContent req) E.
Qed.

Lemma deleteNote_pattern (noteId : ID) :
  follows_pattern svc "Failed to delete note" (deleteNote_action svc noteId).
Proof.
  unfold follows_pattern, deleteNote_action.
  destruct (deleteNote svc noteId) as [response|err] eqn:E.
  - single_resolved (DeleteNote noteId) (@nil (Effect Empty_set)) E.
  - single_rejected (DeleteNote noteId) E.
Qed.

Lemma makeNotePrivate_pattern (noteId : ID) :
  follows_pattern svc "Failed to make note private"
    (makeNotePrivate_action svc noteId).
Proof.
  unfold follows_pattern, makeNotePrivate_action.
  destruct (makePrivate svc noteId) as [response|err] eqn:E.
  - single_resolved (MakePrivate noteId) (@nil (Effect Empty_set)) E.
  - single_rejected (MakePrivate noteId) E.
Qed.

Lemma updatePermissions_pattern (params : UpdateNotePermissionsInput) :
  follows_pattern svc "Failed to update note permissions"
    (updatePermissions_action svc params).
Proof.
  unfold follows_pattern, updatePermissions_action.
  destruct (updateNotePermissions svc (pi_noteId params)
              (pi_organizationId params) (pi_accessType params))
    as [response|err] eqn:E.
  - single_resolved (UpdateNotePermissions (pi_noteId params)
                       (pi_organizationId params) (pi_accessType params))
      (@nil (Effect Empty_set)) E.
  - single_rejected (UpdateNotePermissions (pi_noteId params)
                       (pi_organizationId params) (pi_accessType params)) E.
Qed.

Lemma duplicateNote_pattern (noteId organizationSlug : string) :
  follows_pattern svc "Failed to duplicate note"
    (duplicateNote_action svc noteId organizationSlug).
Proof.
  unfold follows_pattern, duplicateNote_action.
  destruct (getNote svc noteId) as [originalNote|err] eqn:E1.
  2: { single_rejected (GetNote noteId) E1. }
  pose (req := mkCreateNoteReq (title (nwc_note originalNote) +:+ " (Copy)")
                 (access (nwc_note originalNote)) organizationSlug).
  assert (R1 : rejection svc (GetNote noteId) = None) by (cbn; now rewrite E1).
  destruct (createNote svc req) as [newNote|err] eqn:E2.
  2: { exists [GetNote noteId], (CreateNote req). cbn [rejection app map].
       unfold req in *.
       eexists. run_async. rewrite E2. run_async.
       split; [|split; [|split; reflexivity]]; [reflexivity|].
       now repeat constructor. }
  assert (R2 : rejection svc (CreateNote req) = None) by (cbn; now rewrite E2).
  destruct (truthy_opt (content originalNote) || truthy_opt (contentJson originalNote))
    eqn:B.
  2: { exists [GetNote noteId], (CreateNote req), []. cbn [rejection app map].
       unfold req in *.
       run_async. rewrite E2. run_async. rewrite B. run_async.
       split; [reflexivity|]. split; [|split; [eexists; reflexivity | now left]].
       now repeat constructor. }
  pose (creq := mkUpdateContentReq (id newNote) (content originalNote)
                  (plainText originalNote) (contentJson originalNote)).
  destruct (updateNoteContent svc creq) as [stored|err] eqn:E3.
  - exists [GetNote noteId; CreateNote req], (UpdateNoteContent creq), [].
    cbn [rejection app map]. unfold req, creq in *. run_async. rewrite E2. run_async. rewrite B.
    run_async. rewrite E3. run_async.
    split; [reflexivity|]. split; [|split; [eexists; reflexivity | now left]].
    now repeat constructor.
  - exists [GetNote noteId; CreateNote req], (UpdateNoteContent creq).
    cbn [rejection app map]. unfold req, creq in *. eexists. run_async. rewrite E2. run_async.
    rewrite B. run_async. rewrite E3. run_async.
    split; [|split; [|split; reflexivity]]; [reflexivity|].
    now repeat constructor.
Qed.

End WithService.

End HookFacts.

(** ** One flush of the debounced update *)

Module FlushFacts.

Import Pattern HookFacts AsyncFacts Flushes.

(** Splits a flush that passed its guard into the ways its requests can
    settle, and computes the trace of each. *)
Ltac flush_cases options svc title_first titleRef ed noteId :=
  unfold debouncedUpdate_body, await_all, call_onTitleUpdate;
  destruct (String.eqb (or_default (documentTitle ed) "") titleRef) eqn:?;
  cbn [negb];
  try destruct (updateNoteTitle svc (title_request noteId
                  (or_default (documentTitle ed) ""))) as [[]|?] eqn:?;
  destruct (updateNoteContent svc (content_request ed noteId)) as [?|?] eqn:?;
  try destruct title_first;
  try destruct (onTitleUpdate options);
  run_async.

(** In a goal [exists mid late, l = a :: b :: mid ++ [SetIsLoading false] ++ late /\ _],
    with [l] a literal list, gives the two parts of [l] around the last
    state change. *)
Ltac split_list_at l acc k :=
  lazymatch l with
  | SetIsLoading false :: ?late =>
      let mid := eval cbv [rev rev_append app] in (rev acc) in k mid late
  | ?x :: ?l' => split_list_at l' (x :: acc) k
  end.

Ltac split_at_loading_off :=
  lazymatch goal with
  | |- exists mid late, _ :: _ :: ?l = _ /\ _ =>
      split_list_at l (@nil (Effect Empty_set))
        ltac:(fun mid late => exists mid, late)
  end.

Ltac settled_calls :=
  cbn [calls_of omap list_omap app];
  repeat constructor;
  cbn [rejection];
  match goal with
  | E : ?o = Resolved _ |- context [?o] => now rewrite E
  end.

Ltac no_setters := repeat constructor.

(** Finds the rejected request whose error the flush reported. *)
Ltac find_rejection :=
  match goal with
  | E : updateNoteTitle ?svc ?r = Rejected ?err
    |- exists c e, _ ∈ calls_of ?mid /\ _ =>
      exists (UpdateNoteTitle r), err;
      split; [cbn; set_solver|];
      split; [cbn [rejection]; now rewrite E|];
      exists (removelast (removelast mid));
      split; [reflexivity | repeat constructor]
  | E : updateNoteContent ?svc ?r = Rejected ?err
    |- exists c e, _ ∈ calls_of ?mid /\ _ =>
      exists (UpdateNoteContent r), err;
      split; [cbn; set_solver|];
      split; [cbn [rejection]; now rewrite E|];
      exists (removelast (removelast mid));
      split; [reflexivity | repeat constructor]
  end.

Section Flush.

Variable options : UpdateNoteOptions.
Variable svc : NoteService.
Variable title_first : bool.

Lemma content_request_eq (ed : Editor) (noteId : ID) :
  content_request ed noteId =
  mkUpdateContentReq noteId (Some (getHTML ed)) (Some (getText ed))
    (Some (getJSON_stringified ed)).
Proof. unfold content_request. now rewrite !or_default_some. Qed.

(** A flush stopped by its guard logs and does nothing else. *)
Lemma flush_guarded (titleRef : string) (editor : option Editor) (noteId : ID) :
  bool_decide (is_Some editor) && truthy_id noteId = false ->
  debouncedUpdate_body options svc title_first titleRef editor noteId
  = ([ConsoleError guard_message], Return tt).
Proof.
  unfold debouncedUpdate_body. destruct editor as [ed|]; [|reflexivity].
  cbn. now intros ->.
Qed.

(** The requests of a flush that passed its guard, in the order they are
    sent. *)
Lemma flush_calls (titleRef : string) (ed : Editor) (noteId : ID) :
  truthy_id noteId = true ->
  let newTitle := or_default (documentTitle ed) "" in
  calls_of (trace (debouncedUpdate_body options svc title_first titleRef
                     (Some ed) noteId))
  = (if String.eqb newTitle titleRef then []
     else [UpdateNoteTitle (title_request noteId newTitle)])
    ++ [UpdateNoteContent (content_request ed noteId)].
Proof.
  intros Hid newTitle. subst newTitle. unfold debouncedUpdate_body at 1.
  rewrite Hid. cbn [negb].
  flush_cases options svc title_first titleRef ed noteId; reflexivity.
Qed.

(** After a flush that passed its guard, [titleRef] holds the title of
    that flush, however its requests settled. *)
Lemma flush_titleRef (titleRef : string) (ed : Editor) (noteId : ID) :
  truthy_id noteId = true ->
  titleRef_after titleRef
    (trace (debouncedUpdate_body options svc title_first titleRef (Some ed) noteId))
  = or_default (documentTitle ed) "".
Proof.
  intros Hid. unfold debouncedUpdate_body at 1. rewrite Hid. cbn [negb].
  flush_cases options svc title_first titleRef ed noteId;
    cbn; try reflexivity;
    match goal with
    | E : String.eqb _ _ = true |- _ => apply String.eqb_eq in E; now rewrite E
    end.
Qed.

(** When the title changed, the write to [titleRef] comes before the
    title request is sent, hence before anything is awaited. *)
Lemma flush_title_write_first (titleRef : string) (ed : Editor) (noteId : ID) :
  truthy_id noteId = true ->
  let newTitle := or_default (documentTitle ed) "" in
  newTitle <> titleRef ->
  exists rest,
    trace (debouncedUpdate_body options svc title_first titleRef (Some ed) noteId)
    = SetIsLoading true :: SetError None :: SetTitleRef newTitle
      :: Call (UpdateNoteTitle (title_request noteId newTitle))
      :: Call (UpdateNoteContent (content_request ed noteId)) :: rest
    /\ Forall (fun e => forall t, e <> SetTitleRef t) rest
    /\ calls_of rest = [].
Proof.
  intros Hid newTitle Hne. subst newTitle.
  unfold debouncedUpdate_body at 1. rewrite Hid. cbn [negb].
  flush_cases options svc title_first titleRef ed noteId;
    try (match goal with
         | E : String.eqb _ _ = true |- _ =>
             apply String.eqb_eq in E; contradiction
         end);
    eexists; (split; [reflexivity|]); split; try reflexivity;
    repeat constructor; discriminate.
Qed.

(** The debounced update follows its own pattern, and never throws. *)
Lemma flush_pattern (titleRef : string) (editor : option Editor) (noteId : ID) :
  follows_debounced_pattern svc "Failed to update note" editor noteId
    (debouncedUpdate_body options svc title_first titleRef editor noteId).
Proof.
  unfold follows_debounced_pattern.
  destruct (bool_decide (is_Some editor) && truthy_id noteId) eqn:G.
  2: { now rewrite flush_guarded. }
  destruct editor as [ed|]; [|discriminate]. cbn in G.
  unfold debouncedUpdate_body at 1 2. rewrite G. cbn [negb].
  flush_cases options svc title_first titleRef ed noteId.
  all: split; [reflexivity|].
  all: split_at_loading_off.
  all: split; [reflexivity|].
  all: split; [cbn; discriminate|].
  all: split; [repeat constructor; eexists; reflexivity|].
  all: first [left; split; [settled_calls | no_setters] | right; find_rejection].
Qed.

(** C1 (amended). Every flush of the debounced update whose editor and
    noteId are both truthy sends updateNoteTitle, for the extracted title,
    if and only if that title differs from the one recorded in titleRef,
    which is the empty string at first and the extracted title after
    every such flush; and it always sends updateNoteContent with the
    editor's HTML, plain text and serialized JSON. *)
Theorem flush_updates_title_iff_changed (titleRef : string) (ed : Editor)
    (noteId : ID) :
  truthy_id noteId = true ->
  let newTitle := or_default (documentTitle ed) "" in
  let m := debouncedUpdate_body options svc title_first titleRef (Some ed) noteId in
  let content := mkUpdateContentReq noteId (Some (getHTML ed)) (Some (getText ed))
                   (Some (getJSON_stringified ed)) in
  (UpdateNoteTitle (mkUpdateTitleReq noteId newTitle) ∈ calls_of (trace m)
   <-> newTitle <> titleRef)
  /\ (sends_title (trace m) <-> newTitle <> titleRef)
  /\ UpdateNoteContent content ∈ calls_of (trace m)
  /\ calls_of (trace m)
     = (if String.eqb newTitle titleRef then []
        else [UpdateNoteTitle (mkUpdateTitleReq noteId newTitle)])
       ++ [UpdateNoteContent content]
  /\ titleRef_after titleRef (trace m) = newTitle
  /\ titleRef_initial = "".
Proof.
  intros Hid newTitle m content.
  assert (Hcalls : calls_of (trace m)
            = (if String.eqb newTitle titleRef then []
               else [UpdateNoteTitle (mkUpdateTitleReq noteId newTitle)])
              ++ [UpdateNoteContent content]).
  { subst m content. rewrite flush_calls by assumption.
    now rewrite content_request_eq. }
  rewrite Hcalls. unfold sends_title. rewrite Hcalls.
  destruct (String.eqb_spec newTitle titleRef) as [Heq|Hne]; cbn [app].
  - repeat split; try (intros; congruence).
    + intros H. apply list_elem_of_singleton in H. discriminate.
    + intros [r H]. apply list_elem_of_singleton in H. discriminate.
    + apply list_elem_of_singleton. reflexivity.
    + subst m. now rewrite flush_titleRef.
  - repeat split; try (intros; assumption).
    + intros _. apply elem_of_cons. now left.
    + intros _. eexists. apply elem_of_cons. now left.
    + apply elem_of_cons. right. now apply list_elem_of_singleton.
    + subst m. now rewrite flush_titleRef.
Qed.

End Flush.

(** Later flushes that extract the title already recorded send no title
    request, and leave it recorded. *)
Lemma same_title_not_sent (options : UpdateNoteOptions) (t : string)
    (later : list FlushInput) :
  Forall (fun fi => title_of fi = t) later ->
  Forall (fun tr => ~ sends_title tr) (run_flushes options t later).
Proof.
  induction later as [|fi later IH]; intros Hall; [constructor|].
  apply Forall_cons in Hall as [Ht Hall]. cbn [run_flushes].
  cbv zeta. unfold flush_of. unfold title_of in Ht.
  destruct (truthy_id (fi_noteId fi)) eqn:G.
  - rewrite flush_titleRef by assumption. rewrite Ht.
    constructor; [|now apply IH].
    unfold sends_title. rewrite flush_calls by assumption.
    rewrite Ht, String.eqb_refl. cbn [app].
    intros [r H]. apply list_elem_of_singleton in H. discriminate.
  - rewrite flush_guarded by (cbn; now rewrite G).
    constructor; [|now apply IH].
    intros [r H]. cbn in H. now apply elem_of_nil in H.
Qed.

Lemma run_flushes_app (options : UpdateNoteOptions) (later more : list FlushInput) :
  forall t : string,
    run_flushes options t (later ++ more)
    = run_flushes options t later
      ++ run_flushes options (titleRef_after_flushes options t later) more.
Proof.
  induction later as [|fi later IH]; intros t; [reflexivity|].
  cbn [app run_flushes titleRef_after_flushes]. cbv zeta. now rewrite IH.
Qed.

(** Flushes that extract the title already recorded leave it recorded. *)
Lemma same_title_stays (options : UpdateNoteOptions) (t : string)
    (later : list FlushInput) :
  Forall (fun fi => title_of fi = t) later ->
  titleRef_after_flushes options t later = t.
Proof.
  induction later as [|fi later IH]; intros Hall; [reflexivity|].
  apply Forall_cons in Hall as [Ht Hall]. cbn [titleRef_after_flushes].
  unfold flush_of. unfold title_of in Ht.
  destruct (truthy_id (fi_noteId fi)) eqn:G.
  - rewrite flush_titleRef by assumption. rewrite Ht. now apply IH.
  - rewrite flush_guarded by (cbn; now rewrite G). now apply IH.
Qed.

(** C8. When the title changed, a flush writes the new title to titleRef
    before it sends the title request, so before that request is awaited.
    If the request then rejects, the flush reports the error and the new
    title stays recorded; consequently the flushes that follow and extract
    this same title send no title request, whatever their requests do.
    The failed title is sent again, though, as soon as a flush with another
    title has come in between: that flush overwrites titleRef, and the next
    flush with the failed title finds it changed. *)
Theorem failed_title_update_not_resent (options : UpdateNoteOptions)
    (svc : NoteService) (title_first : bool) (titleRef : string) (ed : Editor)
    (noteId : ID) (err : Thrown) (later : list FlushInput) :
  truthy_id noteId = true ->
  let newTitle := or_default (documentTitle ed) "" in
  newTitle <> titleRef ->
  updateNoteTitle svc (mkUpdateTitleReq noteId newTitle) = Rejected err ->
  Forall (fun fi => title_of fi = newTitle) later ->
  let m := debouncedUpdate_body options svc title_first titleRef (Some ed) noteId in
  (exists rest,
     trace m = SetIsLoading true :: SetError None :: SetTitleRef newTitle
               :: Call (UpdateNoteTitle (mkUpdateTitleReq noteId newTitle))
               :: Call (UpdateNoteContent (content_request ed noteId)) :: rest
     /\ (exists e, SetError (Some e) ∈ rest)
     /\ Forall (fun e => forall t, e <> SetTitleRef t) rest)
  /\ result m = Return tt
  /\ titleRef_after titleRef (trace m) = newTitle
  /\ Forall (fun tr => ~ sends_title tr)
       (run_flushes options (titleRef_after titleRef (trace m)) later)
  /\ (forall other again : FlushInput,
        truthy_id (fi_noteId other) = true -> title_of other <> newTitle ->
        truthy_id (fi_noteId again) = true -> title_of again = newTitle ->
        List.last
          (map calls_of
             (run_flushes options (titleRef_after titleRef (trace m))
                (later ++ [other; again]))) []
        = [UpdateNoteTitle (mkUpdateTitleReq (fi_noteId again) newTitle);
           UpdateNoteContent (content_request (fi_editor again) (fi_noteId again))]).
Proof.
  intros Hid newTitle Hne Hrej Hlater m.
  assert (Href : titleRef_after titleRef (trace m) = newTitle).
  { subst m. now rewrite flush_titleRef. }
  split; [|split; [|split; [exact Href|split]]].
  - subst m newTitle. unfold debouncedUpdate_body. rewrite Hid. cbn [negb].
    apply String.eqb_neq in Hne. rewrite Hne. cbn [negb].
    unfold title_request. rewrite Hrej.
    unfold await_all, call_onTitleUpdate.
    destruct (updateNoteContent svc (content_request ed noteId)) as [?|?];
      destruct title_first; run_async;
      eexists; (split; [reflexivity|]);
      (split; [eexists; apply elem_of_cons; left; reflexivity|]);
      repeat constructor; discriminate.
  - subst m. pose proof (flush_pattern options svc title_first titleRef
                           (Some ed) noteId) as [H _]. exact H.
  - rewrite Href. now apply same_title_not_sent.
  - intros other again Go Ho Ga Ha. rewrite Href.
    rewrite run_flushes_app, same_title_stays by assumption.
    cbn [run_flushes]. cbv zeta. rewrite map_app.
    cbn [map].
    match goal with
    | |- context [?l ++ [?a; ?b]] =>
        replace (l ++ [a; b]) with ((l ++ [a]) ++ [b])
          by (now rewrite <- app_assoc)
    end.
    rewrite last_last. unfold flush_of.
    rewrite flush_titleRef by assumption.
    rewrite flush_calls by assumption. fold (title_of again). fold (title_of other).
    rewrite Ha. apply not_eq_sym in Ho. apply String.eqb_neq in Ho.
    rewrite Ho. reflexivity.
Qed.

End FlushFacts.

(** ** The hook over time *)

Module TimeFacts.

Import Lodash UpdateNoteHook Burst AsyncFacts FlushFacts.

Section Running.

Variable options : UpdateNoteOptions.
Variable env : Env.

Local Abbreviation wait := (debounce_wait options) (only parsing).

Lemma flush_at_debounced time args h :
  debouncedUpdate (flush_at options env time args h) = debouncedUpdate h.
Proof. unfold flush_at. now destruct args. Qed.

Lemma flush_at_flushes time args h :
  flushes (flush_at options env time args h)
  = flushes h ++ [mkFlush time (fst args) (snd args)
                    (trace (debouncedUpdate_body options (service_at env time)
                              (title_first_at env time) (titleRef h)
                              (Some (view env (fst args) time)) (snd args)))].
Proof. unfold flush_at. now destruct args. Qed.



(** The timer runs and invokes: no timeout is pending afterwards, and
    the recorded arguments, if any, have been flushed. *)
Lemma expire_invoke due h :
  timerId (debouncedUpdate h) = Some due ->
  shouldInvoke wait due (debouncedUpdate h) = true ->
  expire options env h
  = match lastArgs (debouncedUpdate h) with
    | Some args =>
        flush_at options env due args
          (mkHook (titleRef h)
             (mkDebounced None (lastCallTime (debouncedUpdate h)) due None)
             (flushes h))
    | None =>
        mkHook (titleRef h)
          (mkDebounced None (lastCallTime (debouncedUpdate h))
             (lastInvokeTime (debouncedUpdate h)) None)
          (flushes h)
    end.
Proof.
  intros Hd Hs. unfold expire, timerExpired. rewrite Hd.  rewrite Hs.
  unfold trailingEdge. now destruct (lastArgs (debouncedUpdate h)).
Qed.

(** The timer runs too early after the last call: it restarts itself for
    the remaining wait, which ends [wait] after that call. *)
Lemma expire_restart due h :
  timerId (debouncedUpdate h) = Some due ->
  shouldInvoke wait due (debouncedUpdate h) = false ->
  exists lc,
    lastCallTime (debouncedUpdate h) = Some lc
    /\ 0 <= due - lc < wait
    /\ expire options env h
       = mkHook (titleRef h)
           (mkDebounced (lastArgs (debouncedUpdate h)) (Some lc)
              (lastInvokeTime (debouncedUpdate h)) (Some (lc + wait)))
           (flushes h).
Proof.
  intros Hd Hs. unfold expire, timerExpired. rewrite Hd.  rewrite Hs.
  unfold shouldInvoke in Hs. unfold remainingWait, setTimeout.
  destruct (lastCallTime (debouncedUpdate h)) as [lc|]; [|discriminate].
  apply orb_false_iff in Hs as [H1 H2].
  apply Z.leb_gt in H1. apply Z.ltb_ge in H2.
  exists lc. split; [reflexivity|]. split; [lia|].
  do 3 f_equal. lia.
Qed.

Lemma expire_invoke_idle due h :
  timerId (debouncedUpdate h) = Some due ->
  shouldInvoke wait due (debouncedUpdate h) = true ->
  timerId (debouncedUpdate (expire options env h)) = None.
Proof.
  intros Hd Hs. rewrite (expire_invoke due h Hd Hs).
  destruct (lastArgs (debouncedUpdate h)); [|reflexivity].
  now rewrite flush_at_debounced.
Qed.

(** After [elapse] no timeout is due: two runs of the timer are
    enough. *)
Lemma elapse_settled now h :
  is_due now (elapse options env now h) = false.
Proof.
  unfold elapse.
  destruct (is_due now h) eqn:D1; unfold expire_due at 2; rewrite D1.
  2: { unfold expire_due. now rewrite D1. }
  unfold expire_due.
  destruct (is_due now (expire options env h)) eqn:D2; [|exact D2].
  unfold is_due in D1.
  destruct (timerId (debouncedUpdate h)) as [due|] eqn:T; [|discriminate].
  destruct (shouldInvoke wait due (debouncedUpdate h)) eqn:S.
  - unfold is_due in D2. now rewrite (expire_invoke_idle due h T S) in D2.
  - destruct (expire_restart due h T S) as (lc & L & R & E).
    rewrite E. unfold is_due.
    rewrite (expire_invoke_idle (lc + wait)); [reflexivity | reflexivity |].
    unfold shouldInvoke. cbn.
    destruct (Z.leb_spec wait (lc + wait - lc)); [reflexivity | lia].
Qed.

Lemma last_cons {A} (x d : A) (l : list A) :
  List.last (x :: l) d = List.last l x.
Proof.
  revert x d. induction l as [|y l IH]; intros x d; [reflexivity|].
  change (List.last (x :: y :: l) d) with (List.last (y :: l) d).
  now rewrite !IH.
Qed.







Lemma sorted_bounds (rest : list UpdateCall) :
  forall first : UpdateCall,
    Sorted Z.le (map call_time (first :: rest)) ->
    call_time first <= call_time (List.last rest first)
    /\ Forall (fun c => call_time c <= call_time (List.last rest first)) rest.
Proof.
  induction rest as [|c rest IH]; intros first Hs.
  - cbn. split; [lia | constructor].
  - cbn [map] in Hs. apply Sorted_inv in Hs as [Hs Hhd].
    apply HdRel_inv in Hhd. destruct (IH c Hs) as [Hle Hall].
    rewrite last_cons. split; [lia|]. constructor; assumption.
Qed.

(** The narrower reading of a window implies the one used here. *)
Lemma fixed_window_within_window (rest : list UpdateCall) :
  forall first : UpdateCall,
    within_fixed_window wait first rest -> within_window wait first rest.
Proof.
  induction rest as [|c rest IH]; intros first [Hs Hlast]; [exact I|].
  cbn [map] in Hs. apply Sorted_inv in Hs as [Hs Hhd].
  apply HdRel_inv in Hhd. rewrite last_cons in Hlast.
  destruct (sorted_bounds rest c Hs) as [Hle _].
  split; [lia|]. apply IH. split; [exact Hs | lia].
Qed.





End Running.

End TimeFacts.

(** ** The hooks as a family *)

Module HookFamily.

Import Lodash UpdateNoteHook Pattern Sample HookFacts FlushFacts TimeFacts.

(** C4 (amended). The promise-returning actions of the note hooks
    (createNote, updateNoteContent, deleteNote, makeNotePrivate,
    updatePermissions, duplicateNote) all follow one pattern: isLoading set
    to true and error cleared at the start, the service request(s), on
    failure error set to a new Error (carrying the NoteError message when
    there is one) which is thrown again, and isLoading set back to false at
    the end in every case. The debounced update of useUpdateNote follows it
    only in part: with a falsy editor or noteId it logs and touches no
    state; otherwise it sets isLoading and clears error, sends its
    requests, on failure sets error the same way and logs it, sets
    isLoading back to false as its last state change, and never throws. *)
Theorem hook_actions_follow_pattern (svc : NoteService) :
  (forall params,
      follows_pattern svc "Failed to create note" (createNote_action svc params))
  /\ (forall params,
      follows_pattern svc "Failed to update note content"
        (updateNoteContent_action svc params))
  /\ (forall noteId,
      follows_pattern svc "Failed to delete note" (deleteNote_action svc noteId))
  /\ (forall noteId,
      follows_pattern svc "Failed to make note private"
        (makeNotePrivate_action svc noteId))
  /\ (forall params,
      follows_pattern svc "Failed to update note permissions"
        (updatePermissions_action svc params))
  /\ (forall noteId organizationSlug,
      follows_pattern svc "Failed to duplicate note"
        (duplicateNote_action svc noteId organizationSlug))
  /\ (forall options title_first titleRef editor noteId,
      follows_debounced_pattern svc "Failed to update note" editor noteId
        (debouncedUpdate_body options svc title_first titleRef editor noteId)).
Proof.
  repeat split; intros.
  - apply createNote_pattern.
  - apply updateNoteContent_pattern.
  - apply deleteNote_pattern.
  - apply makeNotePrivate_pattern.
  - apply updatePermissions_pattern.
  - apply duplicateNote_pattern.
  - apply flush_pattern.
  - apply flush_pattern.
Qed.

(** C4, as stated, fails: the debounced update does not follow the pattern
    of the other actions. Here its content request rejects, the error is
    set, and the flush returns normally instead of throwing. *)
Lemma debounced_update_does_not_rethrow :
  let m := debouncedUpdate_body some_options svc_content_fails true "Plan"
             (Some an_editor) (IdNum 7) in
  rejection svc_content_fails (UpdateNoteContent (content_request an_editor (IdNum 7)))
  = Some (ThrownError (NoteError "Request failed"))
  /\ SetError (Some (PlainError "Request failed")) ∈ trace m
  /\ result m = Return tt
  /\ ~ follows_pattern svc_content_fails "Failed to update note" m.
Proof.
  cbv zeta. split; [reflexivity|]. split; [|split; [reflexivity|]].
  { vm_compute. do 3 apply list_elem_of_further. apply list_elem_of_here. }
  intros (before & last & mid & Htr & Hall & Hlast).
  vm_compute in Htr.
  destruct before as [|b before]; cbn in Htr.
  - injection Htr as <- _.
    cbn in Hlast. destruct Hlast as [Hres _]. discriminate Hres.
  - injection Htr as <- _.
    apply Forall_cons in Hall as [Hb _]. discriminate Hb.
Qed.

(** One call of the update function of useUpdateNote on a fresh hook:
    after the wait its flush has run, once, on that editor and noteId. *)
Lemma updateNote_flushes (options : UpdateNoteOptions) (env : Env) (noteId : ID)
    (time : Z) (e : EditorRef) (horizon : Z) :
  let edge := time + Z.max 0 (debounce_wait options) in
  edge <= horizon ->
  flushes (elapse options env horizon
             (updateNote options time (Some e) noteId mounted))
  = [mkFlush edge e noteId
       (trace (debouncedUpdate_body options (service_at env edge)
                 (title_first_at env edge) titleRef_initial
                 (Some (view env e edge)) noteId))].
Proof.
  intros edge Hle.
  set (h := updateNote options time (Some e) noteId mounted).
  assert (T : timerId (debouncedUpdate h) = Some edge) by reflexivity.
  assert (S : shouldInvoke (debounce_wait options) edge (debouncedUpdate h) = true).
  { unfold shouldInvoke. cbn. subst edge.
    destruct (Z.leb_spec (debounce_wait options)
                (time + 0 `max` debounce_wait options - time)); [reflexivity | lia]. }
  assert (D : is_due horizon h = true).
  { unfold is_due. rewrite T. now apply Z.leb_le. }
  unfold elapse. unfold expire_due at 2. rewrite D.
  rewrite (expire_invoke _ _ _ _ T S).
  unfold expire_due, is_due. cbn [lastArgs debouncedUpdate h updateNote debounced
    mounted created timerId]. cbn.
  reflexivity.
Qed.

(** C6. Every hook of the note hooks module returns a pair [state, action].
    The state carries (at least) isLoading and error, read from the hook's
    state cells; the action is the one function that performs the wrapped
    requests: getNote for useNote, createNote for useCreateNote,
    updateNoteContent for useNoteContent, deleteNote for useDeleteNote,
    makePrivate for useMakeNotePrivate, updateNotePermissions for
    useUpdateNotePermissions, getNote then createNote (then
    updateNoteContent) for useDuplicateNote, and, through its debounced
    flush, updateNoteContent (and updateNoteTitle) for useUpdateNote. *)
Theorem hooks_return_state_and_action (svc : NoteService) :
  (forall noteId options cells,
      let '(state, action) := useNote svc noteId options cells in
      isLoading state = c_isLoading cells /\ error state = c_error cells
      /\ calls_of (trace action) = [GetNote noteId])
  /\ (forall cells params,
      let '(state, action) := useCreateNote svc cells in
      isLoading state = c_isLoading cells /\ error state = c_error cells
      /\ calls_of (trace (action params))
         = [CreateNote (mkCreateNoteReq (ci_title params) (ci_grouping params)
                          (ci_organizationSlug params))])
  /\ (forall cells params,
      let '(state, action) := useNoteContent svc cells in
      isLoading state = c_isLoading cells /\ error state = c_error cells
      /\ calls_of (trace (action params))
         = [UpdateNoteContent (mkUpdateContentReq (ui_note params) (ui_fullSrc params)
                                 (ui_plainText params) (ui_fullJson params))])
  /\ (forall cells noteId,
      let '(state, action) := useDeleteNote svc cells in
      isLoading state = c_isLoading cells /\ error state = c_error cells
      /\ calls_of (trace (action noteId)) = [DeleteNote noteId])
  /\ (forall cells noteId,
      let '(state, action) := useMakeNotePrivate svc cells in
      isLoading state = c_isLoading cells /\ error state = c_error cells
      /\ calls_of (trace (action noteId)) = [MakePrivate noteId])
  /\ (forall cells params,
      let '(state, action) := useUpdateNotePermissions svc cells in
      isLoading state = c_isLoading cells /\ error state = c_error cells
      /\ calls_of (trace (action params))
         = [UpdateNotePermissions (pi_noteId params) (pi_organizationId params)
              (pi_accessType params)])
  /\ (forall cells noteId organizationSlug,
      let '(state, action) := useDuplicateNote svc cells in
      isLoading state = c_isLoading cells /\ error state = c_error cells
      /\ exists more,
          calls_of (trace (action noteId organizationSlug)) = GetNote noteId :: more
          /\ forall originalNote newNote,
              getNote svc noteId = Resolved originalNote ->
              createNote svc
                (mkCreateNoteReq (title (nwc_note originalNote) +:+ " (Copy)")
                   (access (nwc_note originalNote)) organizationSlug)
              = Resolved newNote ->
              GetNote noteId :: more
              = duplicate_requests noteId organizationSlug originalNote newNote)
  /\ (forall cells noteId options env time e horizon,
      let '(state, action) := useUpdateNote noteId options cells in
      isLoading state = c_isLoading cells /\ error state = c_error cells
      /\ (time + Z.max 0 (debounce_wait options) <= horizon ->
          truthy_id noteId = true ->
          exists f,
            flushes (elapse options env horizon (action time (Some e) mounted)) = [f]
            /\ flush_editor f = e /\ flush_noteId f = noteId
            /\ exists r, UpdateNoteContent r ∈ calls_of (flush_trace f))).
Proof.
  split; [|split; [|split; [|split; [|split; [|split; [|split]]]]]].
  - intros noteId options cells. cbn.
    repeat split. unfold fetch.
    destruct (getNote svc noteId); reflexivity.
  - intros cells params. cbn. repeat split. unfold createNote_action.
    destruct (createNote svc _); reflexivity.
  - intros cells params. cbn. repeat split. unfold updateNoteContent_action.
    destruct (updateNoteContent svc _); reflexivity.
  - intros cells noteId. cbn. repeat split. unfold deleteNote_action.
    destruct (deleteNote svc _); reflexivity.
  - intros cells noteId. cbn. repeat split. unfold makeNotePrivate_action.
    destruct (makePrivate svc _); reflexivity.
  - intros cells params. cbn. repeat split. unfold updatePermissions_action.
    destruct (updateNotePermissions svc _ _ _); reflexivity.
  - intros cells noteId organizationSlug. cbn. repeat split.
    unfold duplicateNote_action, duplicate_requests.
    destruct (getNote svc noteId) as [originalNote|err] eqn:E1.
    2: { exists []. split; [reflexivity|]. intros ? ? H. discriminate H. }
    run_async.
    destruct (createNote svc _) as [newNote|err] eqn:E2.
    2: { eexists. split; [reflexivity|]. intros ? ? H1 H2.
         injection H1 as <-. rewrite E2 in H2. discriminate H2. }
    run_async.
    destruct (truthy_opt (content originalNote) || truthy_opt (contentJson originalNote))
      eqn:B.
    + run_async.
      destruct (updateNoteContent svc _); run_async;
        (eexists; split; [reflexivity|]; intros ? ? H1 H2;
         injection H1 as <-; rewrite E2 in H2; injection H2 as <-;
         now rewrite B).
    + run_async. eexists. split; [reflexivity|]. intros ? ? H1 H2.
      injection H1 as <-. rewrite E2 in H2. injection H2 as <-. now rewrite B.
  - intros cells noteId options env time e horizon. cbn [useUpdateNote].
    repeat split. intros Hle Hid.
    rewrite updateNote_flushes by assumption.
    eexists. split; [reflexivity|]. cbn [flush_editor flush_noteId flush_trace].
    repeat split.
    rewrite flush_calls by assumption. eexists.
    apply elem_of_app. right. apply list_elem_of_here.
Qed.

End HookFamily.

(** ** NoteList *)

Module NoteListFacts.

Import NoteList Order.

Section SortFacts.

Context {A : Type}.
Variable cmp : A -> A -> Z.

Lemma insert_sorted_perm (x : A) (l : list A) :
  Permutation (insert_sorted cmp x l) (x :: l).
Proof.
  induction l as [|y l IH]; cbn; [reflexivity|].
  destruct (cmp x y <=? 0); [reflexivity|].
  rewrite IH. apply perm_swap.
Qed.

Lemma js_sort_perm (l : list A) : Permutation (js_sort cmp l) l.
Proof.
  induction l as [|x l IH]; cbn; [reflexivity|].
  fold (js_sort cmp l). rewrite insert_sorted_perm. now rewrite IH.
Qed.

Section Ordered.

Hypothesis cmp_anti : forall a b, 0 < cmp a b -> cmp b a <= 0.
Hypothesis cmp_trans : forall a b c, cmp a b <= 0 -> cmp b c <= 0 -> cmp a c <= 0.

Lemma insert_sorted_sorted (x : A) (l : list A) :
  StronglySorted (before cmp) l -> StronglySorted (before cmp) (insert_sorted cmp x l).
Proof.
  induction l as [|y l IH]; intros Hs; cbn.
  - repeat constructor.
  - apply StronglySorted_inv in Hs as [Hs Hy].
    destruct (Z.leb_spec (cmp x y) 0) as [Hle|Hgt].
    + constructor; [now constructor|].
      constructor; [exact Hle|].
      eapply Forall_impl; [exact Hy|]. intros z Hz. now apply (cmp_trans x y z).
    + constructor; [now apply IH|].
      rewrite insert_sorted_perm. constructor; [|exact Hy].
      now apply cmp_anti.
Qed.

Lemma js_sort_sorted (l : list A) : StronglySorted (before cmp) (js_sort cmp l).
Proof.
  induction l as [|x l IH]; cbn; [constructor|].
  now apply insert_sorted_sorted.
Qed.

End Ordered.

Section Stable.

Variable P : A -> Prop.
Context `{!forall x, Decision (P x)}.
(** [P] picks elements that the comparator does not tell apart. *)
Hypothesis P_ties : forall x y, P x -> P y -> cmp x y <= 0.

Lemma insert_sorted_filter (x : A) (l : list A) :
  filter P (insert_sorted cmp x l) = filter P (x :: l).
Proof.
  induction l as [|y l IH]; cbn [insert_sorted]; [reflexivity|].
  destruct (Z.leb_spec (cmp x y) 0) as [Hle|Hgt]; [reflexivity|].
  rewrite (filter_cons _ y), IH, !filter_cons.
  destruct (decide (P x)) as [Px|], (decide (P y)) as [Py|]; try reflexivity.
  specialize (P_ties x y Px Py). lia.
Qed.

(** Stability: the elements of one tie class keep their order. *)
Lemma js_sort_stable (l : list A) : filter P (js_sort cmp l) = filter P l.
Proof.
  induction l as [|x l IH]; cbn [js_sort foldr]; [reflexivity|].
  fold (js_sort cmp l). rewrite insert_sorted_filter, !filter_cons.
  now rewrite IH.
Qed.

End Stable.

End SortFacts.

(** Sorting pairs by their second component is sorting the second
    components. *)
Lemma js_sort_snd {A B} (cmp : B -> B -> Z) (l : list (A * B)) :
  map snd (js_sort (fun x y => cmp (snd x) (snd y)) l) = js_sort cmp (map snd l).
Proof.
  induction l as [|x l IH]; cbn [js_sort foldr map]; [reflexivity|].
  fold (js_sort (fun x y => cmp (snd x) (snd y)) l).
  fold (js_sort cmp (map snd l)). rewrite <- IH.
  generalize (js_sort (fun x y => cmp (snd x) (snd y)) l). intros s.
  induction s as [|y s IHs]; cbn; [reflexivity|].
  destruct (cmp (snd x) (snd y) <=? 0); cbn; [reflexivity|]. now rewrite IHs.
Qed.

Lemma compare_updated_anti (a b : Note) :
  0 < compare_updated a b -> compare_updated b a <= 0.
Proof. unfold compare_updated. lia. Qed.

Lemma compare_updated_trans (a b c : Note) :
  compare_updated a b <= 0 -> compare_updated b c <= 0 -> compare_updated a c <= 0.
Proof. unfold compare_updated. lia. Qed.

Lemma filteredAndSortedNotes_sorted (notes : list Note) (type : ListType) :
  StronglySorted not_older (filteredAndSortedNotes notes type).
Proof.
  unfold filteredAndSortedNotes.
  pose proof (js_sort_sorted compare_updated compare_updated_anti
                compare_updated_trans
                (filter (fun note => keep type note = true) notes)) as Hs.
  induction Hs as [|a l Hs IH Ha]; constructor; [exact IH|].
  eapply Forall_impl; [exact Ha|].
  intros b. unfold before, compare_updated, not_older. lia.
Qed.

Lemma filteredAndSortedNotes_perm (notes : list Note) (type : ListType) :
  Permutation (filteredAndSortedNotes notes type)
    (filter (fun note => keep type note = true) notes).
Proof. apply js_sort_perm. Qed.

Lemma filteredAndSortedNotes_elem (notes : list Note) (type : ListType) (note : Note) :
  note ∈ filteredAndSortedNotes notes type <-> note ∈ notes /\ keep type note = true.
Proof.
  rewrite (filteredAndSortedNotes_perm notes type), list_elem_of_filter. tauto.
Qed.

Lemma filteredAndSortedNotes_stable (notes : list Note) (type : ListType) (date : Z) :
  filter (fun note => updatedDate note = date) (filteredAndSortedNotes notes type)
  = filter (fun note => updatedDate note = date)
      (filter (fun note => keep type note = true) notes).
Proof.
  apply js_sort_stable. intros x y Hx Hy. unfold compare_updated. lia.
Qed.

Lemma filteredAndSortedNotes_nil (notes : list Note) (type : ListType) :
  filteredAndSortedNotes notes type = [] <->
  forall note, note ∈ notes -> keep type note = false.
Proof.
  split.
  - intros Hnil note Hin. destruct (keep type note) eqn:K; [|reflexivity].
    assert (H : note ∈ filteredAndSortedNotes notes type)
      by now apply filteredAndSortedNotes_elem.
    rewrite Hnil in H. now apply elem_of_nil in H.
  - intros Hnone. destruct (filteredAndSortedNotes notes type) as [|n l] eqn:E;
      [reflexivity|].
    assert (H : n ∈ filteredAndSortedNotes notes type)
      by (rewrite E; apply list_elem_of_here).
    apply filteredAndSortedNotes_elem in H as [Hin K].
    rewrite (Hnone n Hin) in K. discriminate.
Qed.

(** A stable sort has one possible result: two arrangements of the same
    notes, both newest first and both keeping the order of the notes of
    each date, are equal. *)
Lemma stable_sorted_unique (l1 : list Note) :
  forall l2 : list Note,
    Permutation l1 l2 ->
    StronglySorted not_older l1 -> StronglySorted not_older l2 ->
    (forall date,
        filter (fun note => updatedDate note = date) l1
        = filter (fun note => updatedDate note = date) l2) ->
    l1 = l2.
Proof.
  induction l1 as [|a l1 IH]; intros l2 Hp Hs1 Hs2 Hst.
  - now apply Permutation_nil in Hp.
  - destruct l2 as [|b l2]; [now apply Permutation_sym, Permutation_nil in Hp|].
    apply StronglySorted_inv in Hs1 as [Hs1 Ha].
    apply StronglySorted_inv in Hs2 as [Hs2 Hb].
    assert (Hab : updatedDate b <= updatedDate a).
    { assert (Hin : b ∈ a :: l1) by (rewrite Hp; apply list_elem_of_here).
      apply elem_of_cons in Hin as [->|Hin]; [lia|].
      rewrite Forall_forall in Ha. now apply Ha. }
    assert (Hba : updatedDate a <= updatedDate b).
    { assert (Hin : a ∈ b :: l2) by (rewrite <- Hp; apply list_elem_of_here).
      apply elem_of_cons in Hin as [->|Hin]; [lia|].
      rewrite Forall_forall in Hb. now apply Hb. }
    assert (Heq : a = b).
    { specialize (Hst (updatedDate a)).
      rewrite filter_cons_True in Hst by reflexivity.
      rewrite filter_cons_True in Hst by lia.
      now injection Hst. }
    subst b. f_equal. apply IH; try assumption.
    + now apply Permutation_cons_inv in Hp.
    + intros date. specialize (Hst date). rewrite !filter_cons in Hst.
      destruct (decide (updatedDate a = date)); [now injection Hst | exact Hst].
Qed.

(** Hence the list does not depend on how the engine sorts: whatever is a
    stable arrangement, newest first, of the kept notes is
    [filteredAndSortedNotes]. *)
Lemma filteredAndSortedNotes_unique (notes : list Note) (type : ListType)
    (l : list Note) :
  Permutation l (filter (fun note => keep type note = true) notes) ->
  StronglySorted not_older l ->
  (forall date,
      filter (fun note => updatedDate note = date) l
      = filter (fun note => updatedDate note = date)
          (filter (fun note => keep type note = true) notes)) ->
  l = filteredAndSortedNotes notes type.
Proof.
  intros Hp Hs Hst. apply stable_sorted_unique.
  - now rewrite Hp, filteredAndSortedNotes_perm.
  - exact Hs.
  - apply filteredAndSortedNotes_sorted.
  - intros date. now rewrite Hst, filteredAndSortedNotes_stable.
Qed.

(** What is rendered, by cases. *)
Lemma render_cases (props : NoteListProps) :
  render props
  = if default false (isLoading props) then NoteListSkeleton
    else match notes props with
         | [] => NoteListSkeleton
         | _ :: _ =>
             match filteredAndSortedNotes (notes props) (type props) with
             | [] => EmptyMessage ("No " +:+ type_word (type props) +:+ " notes")
             | shown => NoteListItems shown
             end
         end.
Proof.
  unfold render.
  destruct (default false (isLoading props)); [reflexivity|]. cbn [orb].
  destruct (notes props) as [|n l]; [reflexivity|].
  cbn [length]. rewrite bool_decide_eq_false_2 by discriminate.
  destruct (filteredAndSortedNotes (n :: l) (type props)); reflexivity.
Qed.

(** C5. Every note is either workspace-shared (WORKSPACE or SHARED) or
    private (PRIVATE), never both, and NoteList splits its notes
    accordingly: for every notes array, with type 'workspace' the listed
    notes are exactly those whose access is WORKSPACE or SHARED, and with
    type 'private' exactly those whose access is PRIVATE; in both cases
    they are ordered by updatedDate, newest first, notes of the same date
    keeping their order. These are the notes NoteList displays (isLoading
    being omitted or false). *)
Theorem NoteList_partitions_by_access (notes : list Note) (type : ListType) :
  let shown := filteredAndSortedNotes notes type in
  (forall note, keep Workspace note = negb (keep Private note))
  /\ (forall note,
       keep type note = true <->
       match type with
       | Workspace => access note = WORKSPACE \/ access note = SHARED
       | Private => access note = PRIVATE
       end)
  /\ Permutation shown (filter (fun note => keep type note = true) notes)
  /\ (forall note, note ∈ shown <-> note ∈ notes /\ keep type note = true)
  /\ StronglySorted not_older shown
  /\ (forall date,
       filter (fun note => updatedDate note = date) shown
       = filter (fun note => updatedDate note = date)
           (filter (fun note => keep type note = true) notes))
  /\ displayed (render (mkNoteListProps notes type None)) = shown
  /\ displayed (render (mkNoteListProps notes type (Some false))) = shown.
Proof.
  intros shown. subst shown.
  split; [|split; [|split; [|split; [|split; [|split; [|split]]]]]].
  - intros note. unfold keep. now destruct (access note).
  - intros note. unfold keep. destruct type, (access note);
      intuition (try discriminate; try reflexivity).
  - apply filteredAndSortedNotes_perm.
  - apply filteredAndSortedNotes_elem.
  - apply filteredAndSortedNotes_sorted.
  - apply filteredAndSortedNotes_stable.
  - rewrite render_cases. cbn -[filteredAndSortedNotes].
    destruct notes as [|n l]; [reflexivity|].
    now destruct (filteredAndSortedNotes (n :: l) type).
  - rewrite render_cases. cbn -[filteredAndSortedNotes].
    destruct notes as [|n l]; [reflexivity|].
    now destruct (filteredAndSortedNotes (n :: l) type).
Qed.

(** C9. NoteList renders the loading skeleton whenever its notes array is
    empty, also when isLoading is false or omitted. The empty-state message
    ('No workspace notes' or 'No private notes') is rendered only when
    notes is not empty and no note matches the selected access filter. *)
Theorem NoteList_skeleton_when_empty :
  (forall type isLoading,
      render (mkNoteListProps [] type isLoading) = NoteListSkeleton)
  /\ (forall props text,
      render props = EmptyMessage text ->
      notes props <> []
      /\ (forall note, note ∈ notes props -> keep (type props) note = false)
      /\ isLoading props <> Some true
      /\ text = match type props with
                | Workspace => "No workspace notes"
                | Private => "No private notes"
                end).
Proof.
  split.
  - intros type isLoading. rewrite render_cases. cbn -[filteredAndSortedNotes].
    now destruct (default false isLoading).
  - intros props text. rewrite render_cases.
    destruct (isLoading props) as [[|]|] eqn:L; cbn -[filteredAndSortedNotes];
      try discriminate.
    all: destruct (notes props) as [|n l] eqn:N; [discriminate|].
    all: destruct (filteredAndSortedNotes (n :: l) (type props)) eqn:F;
      [|discriminate].
    all: intros [=<-].
    all: pose proof (proj1 (filteredAndSortedNotes_nil _ _) F) as Hnone.
    all: repeat split; try discriminate; try exact Hnone.
    all: now destruct (type props).
Qed.

End NoteListFacts.



(** ** NoteList on the heap *)

Module HeapFacts.

Import NoteList NoteListHeap Order NoteListFacts.

Lemma zip_map_fst_snd {A B} (l : list (A * B)) : zip (map fst l) (map snd l) = l.
Proof. induction l as [|[a b] l IH]; cbn; [reflexivity | now rewrite IH]. Qed.

Lemma deref_valid (h : Heap) (pairs : list (loc * Note)) :
  valid h pairs -> deref h (map fst pairs) = Some (map snd pairs).
Proof.
  intros Hv. unfold deref. apply mapM_Some_2.
  induction Hv as [|[r n] l Hrn Hl IH]; cbn; constructor; assumption.
Qed.

Lemma deref_zip (h : Heap) (refs : list loc) (ns : list Note) :
  deref h refs = Some ns ->
  valid h (zip refs ns) /\ map fst (zip refs ns) = refs /\ map snd (zip refs ns) = ns.
Proof.
  intros Hd. apply mapM_Some_1 in Hd.
  induction Hd as [|r n refs ns Hrn Hl (IH1 & IH2 & IH3)]; cbn.
  - repeat split. constructor.
  - rewrite IH2, IH3. repeat split. now constructor.
Qed.

Lemma filter_snd {A B} (P : B -> Prop) `{!forall b, Decision (P b)} (l : list (A * B)) :
  map snd (filter (fun rn => P (snd rn)) l) = filter P (map snd l).
Proof.
  induction l as [|[a b] l IH]; [reflexivity|].
  cbn [map]. rewrite !filter_cons. cbn [snd].
  destruct (decide (P b)); cbn [map]; now rewrite IH.
Qed.

Lemma valid_filter (h : Heap) (P : loc * Note -> Prop) `{!forall x, Decision (P x)}
    (pairs : list (loc * Note)) :
  valid h pairs -> valid h (filter P pairs).
Proof.
  unfold valid. rewrite !Forall_forall. intros Hv rn Hin.
  apply list_elem_of_filter in Hin as [_ Hin]. now apply Hv.
Qed.

Lemma valid_sort (h : Heap) (cmp : loc * Note -> loc * Note -> Z)
    (pairs : list (loc * Note)) :
  valid h pairs -> valid h (js_sort cmp pairs).
Proof.
  unfold valid. intros Hv. now rewrite js_sort_perm.
Qed.

(** [filter] only allocates: the receiver, every other array and every
    note are as before; the new array holds the kept notes. *)
Lemma array_filter_spec (p : Note -> bool) (a : loc) (h : Heap) (ns : list Note) :
  read_array h a = Some ns ->
  exists h' out,
    array_filter p a h = Some (h', out)
    /\ objects h' = objects h
    /\ arrays h !! out = None
    /\ arrays h' = <[out := map fst (filter (fun rn => p (snd rn) = true)
                                       (zip (default [] (arrays h !! a)) ns))]>
                     (arrays h)
    /\ read_array h' out = Some (filter (fun n => p n = true) ns).
Proof.
  unfold read_array, array_filter. intros Hread.
  destruct (arrays h !! a) as [refs|] eqn:Ha; [|discriminate]. cbn in Hread |- *.
  rewrite Hread. cbn.
  destruct (deref_zip h refs ns Hread) as (Hv & Hf & Hs).
  eexists _, _. split; [reflexivity|]. cbn.
  split; [reflexivity|].
  split; [apply not_elem_of_dom, is_fresh|].
  split; [reflexivity|].
  rewrite lookup_insert_eq. cbn.
  unfold deref in *. cbn.
  fold (deref h (map fst (filter (fun rn => p (snd rn) = true) (zip refs ns)))).
  rewrite deref_valid by now apply valid_filter.
  f_equal. rewrite <- Hs at 2. exact (filter_snd (fun n => p n = true) (zip refs ns)).
Qed.

(** [sort] reorders its receiver in place and touches nothing else. *)
Lemma array_sort_spec (cmp : Note -> Note -> Z) (a : loc) (h : Heap) (ns : list Note) :
  read_array h a = Some ns ->
  exists h',
    array_sort cmp a h = Some (h', a)
    /\ objects h' = objects h
    /\ (forall b, b <> a -> arrays h' !! b = arrays h !! b)
    /\ read_array h' a = Some (js_sort cmp ns).
Proof.
  unfold read_array, array_sort. intros Hread.
  destruct (arrays h !! a) as [refs|] eqn:Ha; [|discriminate]. cbn in Hread |- *.
  rewrite Hread. cbn.
  destruct (deref_zip h refs ns Hread) as (Hv & Hf & Hs).
  eexists. split; [reflexivity|]. cbn.
  split; [reflexivity|].
  split; [intros b Hb; now rewrite lookup_insert_ne|].
  rewrite lookup_insert_eq. cbn.
  set (sorted := js_sort _ (zip refs ns)).
  change (deref h (map fst sorted) = Some (js_sort cmp ns)).
  rewrite deref_valid by now apply valid_sort.
  subst sorted. now rewrite js_sort_snd, Hs.
Qed.

Import Hooks.

(** C7. The front end does not change what it received. NoteList: the
    array passed as notes and every note object are, after a render, as
    they were before it; the filtered list is a new array, and only that
    new array is sorted in place. The note hooks: a response of the
    service is stored in the note cell and returned to the caller as it
    was received. *)
Theorem entities_are_not_mutated :
  (forall (h : Heap) (notes : loc) (type : ListType) (ns : list Note),
      read_array h notes = Some ns ->
      exists h' out,
        NoteListHeap.filteredAndSortedNotes_on_heap notes type h = Some (h', out)
        /\ objects h' = objects h
        /\ arrays h !! out = None
        /\ (forall a, a <> out -> arrays h' !! a = arrays h !! a)
        /\ arrays h' !! notes = arrays h !! notes
        /\ read_array h' notes = Some ns
        /\ read_array h' out = Some (NoteList.filteredAndSortedNotes ns type))
  /\ (forall svc noteId noteData,
      getNote svc noteId = Resolved noteData ->
      fetch svc noteId
      = ([SetIsLoading true; SetError None; Call (GetNote noteId);
          SetNote (Some noteData); SetIsLoading false], Return tt))
  /\ (forall svc params response,
      let req := mkCreateNoteReq (ci_title params) (ci_grouping params)
                   (ci_organizationSlug params) in
      createNote svc req = Resolved response ->
      createNote_action svc params
      = ([SetIsLoading true; SetError None; Call (CreateNote req);
          SetNote (Some response); SetIsLoading false], Return response))
  /\ (forall svc params response,
      let req := mkUpdateContentReq (ui_note params) (ui_fullSrc params)
                   (ui_plainText params) (ui_fullJson params) in
      updateNoteContent svc req = Resolved response ->
      updateNoteContent_action svc params
      = ([SetIsLoading true; SetError None; Call (UpdateNoteContent req);
          SetNote (Some response); SetIsLoading false], Return response))
  /\ (forall svc noteId response,
      deleteNote svc noteId = Resolved response ->
      result (deleteNote_action svc noteId) = Return response)
  /\ (forall svc noteId response,
      makePrivate svc noteId = Resolved response ->
      result (makeNotePrivate_action svc noteId) = Return response)
  /\ (forall svc noteId organizationSlug response,
      result (duplicateNote_action svc noteId organizationSlug) = Return response ->
      exists originalNote,
        getNote svc noteId = Resolved originalNote
        /\ createNote svc
             (mkCreateNoteReq (title (nwc_note originalNote) +:+ " (Copy)")
                (access (nwc_note originalNote)) organizationSlug)
           = Resolved response).
Proof.
  split; [|split; [|split; [|split; [|split; [|split]]]]].
  - intros h notes type ns Hread.
    destruct (array_filter_spec (keep type) notes h ns Hread)
      as (h1 & out & Hf & Hobj1 & Hfresh & Harr1 & Hread1).
    destruct (array_sort_spec compare_updated out h1 _ Hread1)
      as (h2 & Hs & Hobj2 & Harr2 & Hread2).
    assert (Hne : notes <> out).
    { intros ->. unfold read_array in Hread. now rewrite Hfresh in Hread. }
    assert (Hkeep : forall a, a <> out -> arrays h2 !! a = arrays h !! a).
    { intros a Ha. rewrite Harr2 by assumption. rewrite Harr1.
      now rewrite lookup_insert_ne. }
    exists h2, out.
    split; [unfold NoteListHeap.filteredAndSortedNotes_on_heap; rewrite Hf; exact Hs|].
    split; [congruence|].
    split; [exact Hfresh|].
    split; [exact Hkeep|].
    split; [now apply Hkeep|].
    split; [|exact Hread2].
    unfold read_array in *. rewrite (Hkeep notes Hne).
    destruct (arrays h !! notes); [|discriminate]. cbn in *.
    unfold deref in *. now rewrite Hobj2, Hobj1.
  - intros svc noteId noteData E. unfold fetch. now rewrite E.
  - intros svc params response req E. unfold createNote_action.
    fold req. now rewrite E.
  - intros svc params response req E. unfold updateNoteContent_action.
    fold req. now rewrite E.
  - intros svc noteId response E. unfold deleteNote_action. now rewrite E.
  - intros svc noteId response E. unfold makeNotePrivate_action. now rewrite E.
  - intros svc noteId organizationSlug response.
    unfold duplicateNote_action.
    destruct (getNote svc noteId) as [originalNote|err] eqn:E1;
      HookFacts.run_async; [|discriminate].
    destruct (createNote svc _) as [newNote|err] eqn:E2;
      HookFacts.run_async; [|discriminate].
    destruct (truthy_opt (content originalNote) || truthy_opt (contentJson originalNote));
      HookFacts.run_async.
    + destruct (updateNoteContent svc _); HookFacts.run_async; [|discriminate].
      intros [= <-]. eauto.
    + intros [= <-]. eauto.
Qed.

End HeapFacts.

(** ** ImageUploadModal *)

Module ModalFacts.

Import ImageUploadModal ModalSpec.

Lemma is_image_spec (file : option File) :
  is_image file = true <->
  exists f, file = Some f /\ String.prefix "image/" (type f) = true.
Proof.
  unfold is_image. destruct file as [f|].
  - split; [eauto|]. now intros (f' & [= <-] & H).
  - split; [discriminate|]. now intros (f' & [=] & _).
Qed.

Lemma chosen_intro (file : option File) (m m' : Modal) :
  (is_image file = true -> selectedFile m' = file /\ validationError m' = None) ->
  (is_image file = false ->
   selectedFile m' = selectedFile m
   /\ validationError m' = Some "Please select an image file") ->
  chosen file m m'.
Proof.
  intros Hyes Hno. split; [|split; assumption].
  rewrite <- is_image_spec. split.
  - intros (f & -> & Hsel & Herr).
    destruct (is_image (Some f)) eqn:I; [reflexivity|].
    destruct (Hno eq_refl) as [_ E]. rewrite E in Herr. discriminate.
  - intros I. destruct (Hyes I) as [Hsel Herr].
    apply is_image_spec in I as (f & -> & _). eauto.
Qed.

(** C10. For every file dropped onto ImageUploadModal or chosen in its
    file input, the file becomes the selected file and the validation
    error is cleared if and only if there is a file and its MIME type
    starts with 'image/'; otherwise the file selected before stays
    selected and the validation error is set to 'Please select an image
    file'. *)
Theorem image_file_is_selected_iff_image (m : Modal) :
  (forall files : list File, chosen (head files) m (handleDrop files m))
  /\ (forall files : option (list File),
       chosen (files ≫= head) m (handleFileSelect files m)).
Proof.
  split; intros files; apply chosen_intro; intros I.
  - unfold handleDrop. now rewrite I.
  - unfold handleDrop. now rewrite I.
  - unfold handleFileSelect. now rewrite I.
  - unfold handleFileSelect. now rewrite I.
Qed.

End ModalFacts.

(** ** The properties at work on the sample data *)

Module Witness.

Import Lodash UpdateNoteHook Burst Flushes Pattern Sample.

(** A flush with title Plan on a fresh hook sends the title, then the
    content. *)
Lemma flush_updates_title_iff_changed_witness :
  truthy_id (IdNum 7) = true
  /\ calls_of (trace (debouncedUpdate_body some_options svc_ok true ""
                        (Some an_editor) (IdNum 7)))
     = [UpdateNoteTitle (mkUpdateTitleReq (IdNum 7) "Plan");
        UpdateNoteContent (mkUpdateContentReq (IdNum 7) (Some "<h1>Plan</h1>")
                             (Some "Plan") (Some "{}"))].
Proof.
  split; [reflexivity|].
  destruct (FlushFacts.flush_updates_title_iff_changed some_options svc_ok true ""
              an_editor (IdNum 7) eq_refl) as (_ & _ & _ & H & _).
  exact H.
Defined.

(** C1, as stated, fails: a flush whose noteId is the empty string stops at
    its guard and sends no content update. *)
Lemma flush_without_noteId_sends_nothing :
  let m := debouncedUpdate_body some_options svc_ok true titleRef_initial
             (Some an_editor) (IdStr "") in
  calls_of (trace m) = []
  /\ ~ (exists r, UpdateNoteContent r ∈ calls_of (trace m)).
Proof.
  cbv zeta. split; [reflexivity|].
  intros [r H]. vm_compute in H. now apply elem_of_nil in H.
Qed.





(** The title request of the first flush rejects; the next flush, with the
    same title, sends no title request. *)
Lemma failed_title_update_not_resent_witness :
  truthy_id (IdNum 7) = true
  /\ or_default (documentTitle an_editor) "" <> ""
  /\ updateNoteTitle svc_title_fails (mkUpdateTitleReq (IdNum 7) "Plan")
     = Rejected (ThrownError (NoteError "Request failed"))
  /\ Forall (fun fi => title_of fi = "Plan") [a_later_flush]
  /\ Forall (fun tr => ~ sends_title tr)
       (run_flushes some_options
          (titleRef_after ""
             (trace (debouncedUpdate_body some_options svc_title_fails true ""
                       (Some an_editor) (IdNum 7))))
          [a_later_flush]).
Proof.
  assert (Hne : or_default (documentTitle an_editor) "" <> "") by discriminate.
  assert (Hall : Forall (fun fi => title_of fi = "Plan") [a_later_flush])
    by (repeat constructor).
  split; [reflexivity|]. split; [exact Hne|]. split; [reflexivity|].
  split; [exact Hall|].
  destruct (FlushFacts.failed_title_update_not_resent some_options svc_title_fails
              true "" an_editor (IdNum 7) (ThrownError (NoteError "Request failed"))
              [a_later_flush] eq_refl Hne eq_refl Hall) as (_ & _ & _ & H & _).
  exact H.
Defined.

(** C8, as stated, fails: the title request for Plan rejects; the next
    flush finds the title Draft and sends it; the flush after that has the
    title Plan again, and the failed title is sent once more. *)
Lemma failed_title_is_resent_after_another_title :
  updateNoteTitle svc_title_fails (mkUpdateTitleReq (IdNum 7) "Plan")
  = Rejected (ThrownError (NoteError "Request failed"))
  /\ map title_of [a_failing_flush; a_flush_of_another_title; a_later_flush]
     = ["Plan"; "Draft"; "Plan"]
  /\ map calls_of
       (run_flushes some_options ""
          [a_failing_flush; a_flush_of_another_title; a_later_flush])
     = [[UpdateNoteTitle (mkUpdateTitleReq (IdNum 7) "Plan");
         UpdateNoteContent (mkUpdateContentReq (IdNum 7) (Some "<h1>Plan</h1>")
                              (Some "Plan") (Some "{}"))];
        [UpdateNoteTitle (mkUpdateTitleReq (IdNum 7) "Draft");
         UpdateNoteContent (mkUpdateContentReq (IdNum 7) (Some "<h1>Draft</h1>")
                              (Some "Draft") (Some "{}"))];
        [UpdateNoteTitle (mkUpdateTitleReq (IdNum 7) "Plan");
         UpdateNoteContent (mkUpdateContentReq (IdNum 7) (Some "<h1>Plan</h1>")
                              (Some "Plan") (Some "{}"))]].
Proof.
  repeat split.
Qed.

(** A workspace note only, listed as private: the empty-state message. *)
Lemma NoteList_skeleton_when_empty_witness :
  NoteList.render (NoteList.mkNoteListProps [a_note] NoteList.Private None)
  = NoteList.EmptyMessage "No private notes"
  /\ NoteList.keep NoteList.Private a_note = false.
Proof.
  assert (Hr : NoteList.render (NoteList.mkNoteListProps [a_note] NoteList.Private None)
               = NoteList.EmptyMessage "No private notes") by reflexivity.
  split; [exact Hr|].
  destruct NoteListFacts.NoteList_skeleton_when_empty as [_ H].
  destruct (H _ _ Hr) as (_ & Hnone & _).
  apply Hnone. cbn. apply list_elem_of_here.
Defined.

(** A render of the three sample notes as workspace list leaves the notes
    array alone and lists the two workspace notes, newest first. *)
Lemma entities_are_not_mutated_witness :
  NoteListHeap.read_array a_heap 1%positive = Some some_notes
  /\ exists h' out,
      NoteListHeap.filteredAndSortedNotes_on_heap 1%positive NoteList.Workspace a_heap
      = Some (h', out)
      /\ NoteListHeap.read_array h' 1%positive = Some some_notes
      /\ NoteListHeap.read_array h' out = Some [a_shared_note; a_note].
Proof.
  assert (Hread : NoteListHeap.read_array a_heap 1%positive = Some some_notes)
    by reflexivity.
  split; [exact Hread|].
  destruct HeapFacts.entities_are_not_mutated as [H _].
  destruct (H a_heap 1%positive NoteList.Workspace some_notes Hread)
    as (h' & out & Hrun & _ & _ & _ & _ & Hnotes & Hout).
  exists h', out. repeat split; assumption.
Defined.

(** One call of the update function of useUpdateNote ends in a content
    update. *)
Lemma hooks_return_state_and_action_witness :
  exists f,
    flushes (elapse some_options an_env 2000
               (snd (useUpdateNote (IdNum 7) some_options initial) 0
                  (Some 1%nat) mounted)) = [f]
    /\ exists r, UpdateNoteContent r ∈ calls_of (flush_trace f).
Proof.
  destruct (HookFamily.hooks_return_state_and_action svc_ok)
    as (_ & _ & _ & _ & _ & _ & _ & H).
  specialize (H initial (IdNum 7) some_options an_env 0 1%nat 2000).
  cbn [useUpdateNote] in H. destruct H as (_ & _ & H).
  destruct H as (f & Hf & _ & _ & Hr); [cbn; lia | reflexivity |].
  exists f. split; assumption.
Defined.

(** A picture dropped on the modal is selected; a PDF is refused and the
    picture stays selected. *)
Lemma image_file_is_selected_iff_image_witness :
  let m := ImageUploadModal.handleDrop [a_picture] ImageUploadModal.initial_modal in
  ImageUploadModal.selectedFile m = Some a_picture
  /\ ImageUploadModal.selectedFile (ImageUploadModal.handleDrop [a_document] m)
     = Some a_picture
  /\ ImageUploadModal.validationError (ImageUploadModal.handleDrop [a_document] m)
     = Some "Please select an image file".
Proof.
  cbv zeta.
  destruct (ModalFacts.image_file_is_selected_iff_image ImageUploadModal.initial_modal)
    as [H1 _].
  destruct (H1 [a_picture]) as (_ & Hyes & _).
  destruct (Hyes eq_refl) as [Hsel _].
  split; [exact Hsel|].
  destruct (ModalFacts.image_file_is_selected_iff_image
              (ImageUploadModal.handleDrop [a_picture] ImageUploadModal.initial_modal))
    as [H2 _].
  destruct (H2 [a_document]) as (_ & _ & Hno).
  destruct (Hno eq_refl) as [Hkeep Herr].
  split; [|exact Herr]. rewrite Hkeep. exact Hsel.
Defined.

End Witness.

(** ** More about the note hooks *)

Module MoreHookFacts.

Import Pattern HookSpec HookFacts FlushFacts AsyncFacts.

Lemma apply_effects_calls {N} (cells : Cells N) (cs : list ServiceCall) :
  apply_effects cells (map Call cs) = cells.
Proof.
  induction cs as [|c cs IH]; [reflexivity|]. exact IH.
Qed.

Lemma apply_effects_no_setter {N} (tr : list (Effect N)) :
  forall cells : Cells N,
    Forall (fun e => is_state_setter e = false) tr ->
    apply_effects cells tr = cells.
Proof.
  induction tr as [|e tr IH]; intros cells Hall; [reflexivity|].
  apply Forall_cons in Hall as [He Hall].
  change (apply_effects cells (e :: tr))
    with (apply_effects (apply_effect cells e) tr).
  rewrite IH by assumption.
  destruct e; try discriminate; destruct cells; reflexivity.
Qed.

(** Effects that set no cell do not count, wherever they fall. *)
Lemma apply_effects_interleaves {N} (own others all : list (Effect N)) :
  interleaves own others all ->
  set_no_state others ->
  forall cells : Cells N, apply_effects cells all = apply_effects cells own.
Proof.
  induction 1 as [|e own others all _ IH|e own others all _ IH];
    intros Hno cells; [reflexivity| |].
  - change (apply_effects (apply_effect cells e) all
            = apply_effects (apply_effect cells e) own).
    now apply IH.
  - apply Forall_cons in Hno as [He Hno].
    change (apply_effects (apply_effect cells e) all = apply_effects cells own).
    rewrite IH by assumption. f_equal.
    destruct e; try discriminate; destruct cells; reflexivity.
Qed.

(** What the others did before the invocation started is an
    interleaving. *)
Lemma interleaves_after {E} (own others : list E) :
  interleaves own others (others ++ own).
Proof.
  induction others as [|e others IH]; cbn.
  - induction own as [|e own IH]; constructor; exact IH.
  - now constructor.
Qed.

(** An action that follows the pattern leaves the cells settled. *)
Lemma pattern_ends_settled {N A} (svc : NoteService) (fallback : string)
    (m : Async N A) :
  follows_pattern svc fallback m -> ends_settled m.
Proof.
  intros (before & last & mid & Htr & _ & Hlast) cells others all Hall Hno.
  cbv zeta. rewrite (apply_effects_interleaves _ _ _ Hall Hno).
  rewrite Htr.
  change (apply_effects cells
            (SetIsLoading true :: SetError None
             :: map Call (before ++ [last]) ++ mid ++ [SetIsLoading false]))
    with (apply_effects (mkCells (c_note cells) true None)
            (map Call (before ++ [last]) ++ mid ++ [SetIsLoading false])).
  rewrite apply_effects_app, apply_effects_calls, apply_effects_app.
  destruct (rejection svc last) as [err|].
  - destruct Hlast as [-> ->]. cbn. split; [reflexivity|]. eauto.
  - destruct Hlast as [[a ->] [->| [n ->]]]; cbn; auto.
Qed.

Section WithService.

Variable svc : NoteService.

(** X1. fetch of useNote never rejects. When it is over, and no other
    fetch of the hook has set the state cells while it ran, isLoading is
    false and the cells hold either the note that was fetched and no
    error, or no note and the error: the thrown Error itself, or a new
    Error with the message Failed to fetch note when something else was
    thrown. *)
Theorem fetch_leaves_note_or_error (noteId : string)
    (cells : Cells NoteWithContent)
    (others all : list (Effect NoteWithContent)) :
  let m := fetch svc noteId in
  interleaves (trace m) others all ->
  set_no_state others ->
  let cells' := apply_effects cells all in
  result m = Return tt
  /\ c_isLoading cells' = false
  /\ match getNote svc noteId with
     | Resolved noteData => c_note cells' = Some noteData /\ c_error cells' = None
     | Rejected err =>
         c_note cells' = None
         /\ c_error cells' = Some (error_or_new err "Failed to fetch note")
     end.
Proof.
  intros m Hall Hno cells'. subst cells'.
  rewrite (apply_effects_interleaves _ _ _ Hall Hno). subst m.
  unfold fetch. destruct (getNote svc noteId); repeat split.
Qed.

(** X2. Each promise-returning action leaves the state cells settled,
    whatever they held before, provided no other invocation sets them
    while it runs: isLoading false; after a success no error, so the
    error of an earlier failure is gone; after a failure the thrown
    Error in the error cell and the note cell unchanged, so a note
    stored by an earlier success stays. *)
Theorem actions_end_settled :
  (forall params, ends_settled (createNote_action svc params))
  /\ (forall params, ends_settled (updateNoteContent_action svc params))
  /\ (forall noteId, ends_settled (deleteNote_action svc noteId))
  /\ (forall noteId, ends_settled (makeNotePrivate_action svc noteId))
  /\ (forall params, ends_settled (updatePermissions_action svc params))
  /\ (forall noteId organizationSlug,
         ends_settled (duplicateNote_action svc noteId organizationSlug)).
Proof.
  split; [|split; [|split; [|split; [|split]]]]; intros;
    eapply pattern_ends_settled.
  - apply createNote_pattern.
  - apply updateNoteContent_pattern.
  - apply deleteNote_pattern.
  - apply makeNotePrivate_pattern.
  - apply updatePermissions_pattern.
  - apply duplicateNote_pattern.
Qed.

(** duplicateNote only ever sends getNote, createNote and
    updateNoteContent. *)
Lemma duplicateNote_only_copies (noteId organizationSlug : string) :
  forallb only_copies
    (calls_of (trace (duplicateNote_action svc noteId organizationSlug))) = true.
Proof.
  unfold duplicateNote_action.
  destruct (getNote svc noteId) as [originalNote|]; run_async; [|reflexivity].
  destruct (createNote svc _) as [newNote|]; run_async; [|reflexivity].
  destruct (truthy_opt (content originalNote) || truthy_opt (contentJson originalNote));
    run_async; [|reflexivity].
  destruct (updateNoteContent svc _); reflexivity.
Qed.

(** X3. When copying the body fails, duplicateNote rejects although the
    new note has been created: the requests sent are getNote, createNote
    and the failed updateNoteContent, and nothing removes the copy
    (duplicateNote never sends another kind of request). *)
Theorem duplicateNote_failed_copy_leaves_new_note (noteId organizationSlug : string)
    (originalNote : NoteWithContent) (newNote : Note) (err : Thrown) :
  let req := mkCreateNoteReq (title (nwc_note originalNote) +:+ " (Copy)")
               (access (nwc_note originalNote)) organizationSlug in
  let creq := mkUpdateContentReq (id newNote) (content originalNote)
                (plainText originalNote) (contentJson originalNote) in
  let m := duplicateNote_action svc noteId organizationSlug in
  getNote svc noteId = Resolved originalNote ->
  createNote svc req = Resolved newNote ->
  truthy_opt (content originalNote) || truthy_opt (contentJson originalNote) = true ->
  updateNoteContent svc creq = Rejected err ->
  result m
  = Throw (ThrownError (PlainError (note_error_message err "Failed to duplicate note")))
  /\ calls_of (trace m)
     = [GetNote noteId; CreateNote req; UpdateNoteContent creq]
  /\ forallb only_copies (calls_of (trace m)) = true.
Proof.
  intros req creq m E1 E2 B E3.
  split; [|split; [|apply duplicateNote_only_copies]].
  - subst m. unfold duplicateNote_action. rewrite E1. run_async.
    fold req. rewrite E2. run_async. rewrite B. run_async.
    fold creq. rewrite E3. reflexivity.
  - subst m. unfold duplicateNote_action. rewrite E1. run_async.
    fold req. rewrite E2. run_async. rewrite B. run_async.
    fold creq. rewrite E3. reflexivity.
Qed.

(** X4. A note whose content and contentJson are both missing or empty
    is duplicated without a body, also when it has plain text: the copy
    is created with the title followed by ' (Copy)' and the same access,
    returned, and no updateNoteContent is sent. *)
Theorem duplicateNote_without_content_copies_no_body
    (noteId organizationSlug : string) (originalNote : NoteWithContent)
    (newNote : Note) :
  let req := mkCreateNoteReq (title (nwc_note originalNote) +:+ " (Copy)")
               (access (nwc_note originalNote)) organizationSlug in
  getNote svc noteId = Resolved originalNote ->
  truthy_opt (content originalNote) = false ->
  truthy_opt (contentJson originalNote) = false ->
  createNote svc req = Resolved newNote ->
  duplicateNote_action svc noteId organizationSlug
  = ([SetIsLoading true; SetError None; Call (GetNote noteId);
      Call (CreateNote req); SetIsLoading false], Return newNote).
Proof.
  intros req E1 B1 B2 E2. unfold duplicateNote_action. rewrite E1. run_async.
  fold req. rewrite E2. run_async. rewrite B1, B2. reflexivity.
Qed.

End WithService.

Section Flush.

Variable options : UpdateNoteOptions.
Variable svc : NoteService.
Variable title_first : bool.

(** X5. In a flush that passed its guard the title callback runs exactly
    when a callback was given, the title changed and the title request
    resolved; then it runs once, with the new title, also when the
    content request of the same flush fails. Otherwise it does not
    run. *)
Theorem flush_calls_back_iff_title_saved (titleRef : string) (ed : Editor)
    (noteId : ID) :
  truthy_id noteId = true ->
  let newTitle := or_default (documentTitle ed) "" in
  title_callbacks
    (trace (debouncedUpdate_body options svc title_first titleRef (Some ed) noteId))
  = if onTitleUpdate options
       && negb (String.eqb newTitle titleRef)
       && resolves (updateNoteTitle svc (title_request noteId newTitle))
    then [newTitle] else [].
Proof.
  intros Hid newTitle. subst newTitle.
  unfold debouncedUpdate_body at 1. rewrite Hid. cbn [negb].
  flush_cases options svc title_first titleRef ed noteId;
    rewrite ?andb_false_r; reflexivity.
Qed.

(** X6. A flush that passed its guard, during which no other flush sets
    the state cells, leaves isLoading false and the error cell empty
    exactly when every request it sent resolved; the error of an earlier
    flush does not survive a flush that succeeds. *)
Theorem flush_error_iff_request_failed (titleRef : string) (ed : Editor)
    (noteId : ID) (cells : Cells Empty_set)
    (others all : list (Effect Empty_set)) :
  truthy_id noteId = true ->
  let m := debouncedUpdate_body options svc title_first titleRef (Some ed) noteId in
  interleaves (trace m) others all ->
  set_no_state others ->
  let cells' := apply_effects cells all in
  c_isLoading cells' = false
  /\ (c_error cells' = None
      <-> Forall (fun c => rejection svc c = None) (calls_of (trace m))).
Proof.
  intros Hid m Hinter Hno cells'.
  pose proof (flush_pattern options svc title_first titleRef (Some ed) noteId)
    as [_ Hp].
  rewrite bool_decide_eq_true_2 in Hp by eauto. rewrite Hid in Hp.
  cbn [andb] in Hp.
  destruct Hp as (mid & late & Htr & _ & Hlate & Hcases).
  fold m in Htr.
  assert (Hlate_setters : Forall (fun e : Effect Empty_set => is_state_setter e = false)
                            late).
  { eapply Forall_impl; [exact Hlate|]. now intros e [t ->]. }
  assert (Hlate_calls : calls_of late = []).
  { clear -Hlate. induction Hlate as [|e l [t ->] _ IH]; [reflexivity | exact IH]. }
  assert (Hcalls : calls_of (trace m) = calls_of mid).
  { rewrite Htr.
    change (SetIsLoading true :: SetError None
            :: mid ++ [SetIsLoading false] ++ late)
      with ([@SetIsLoading Empty_set true; SetError None]
            ++ mid ++ [SetIsLoading false] ++ late).
    rewrite !calls_of_app, Hlate_calls. cbn. now rewrite app_nil_r. }
  subst cells'. rewrite (apply_effects_interleaves _ _ _ Hinter Hno).
  rewrite Hcalls, Htr.
  change (apply_effects cells
            (SetIsLoading true :: SetError None
             :: mid ++ [SetIsLoading false] ++ late))
    with (apply_effects (mkCells (c_note cells) true None)
            (mid ++ [SetIsLoading false] ++ late)).
  rewrite !apply_effects_app, (apply_effects_no_setter late) by assumption.
  destruct Hcases as [[Hok Hmid] | (c & err & Hin & Hrej & mid' & -> & Hmid')].
  - rewrite (apply_effects_no_setter mid) by assumption. cbn.
    split; [reflexivity|]. split; [intros _; exact Hok | reflexivity].
  - rewrite apply_effects_app, (apply_effects_no_setter mid') by assumption.
    cbn. split; [reflexivity|]. split; [discriminate|].
    intros Hall. rewrite Forall_forall in Hall. specialize (Hall c Hin).
    rewrite Hrej in Hall. discriminate.
Qed.

End Flush.

End MoreHookFacts.

(** ** More about the hook over time *)

Module MoreTimeFacts.

Import Lodash UpdateNoteHook Burst HookSpec AsyncFacts FlushFacts TimeFacts.

Section Running.

Variable options : UpdateNoteOptions.
Variable env : Env.

Local Abbreviation wait := (debounce_wait options) (only parsing).

(** A call made while nothing is pending, then the run of its timeout:
    the call is flushed at that instant, and nothing is pending again. *)
Lemma call_then_timer (ct : UpdateCall * Z) (h : Hook) :
  timerId (debouncedUpdate h) = None ->
  not_early wait ct ->
  let h' := timer_runs options env (snd ct)
              (updateNote options (call_time (fst ct))
                 (Some (call_editor (fst ct))) (call_noteId (fst ct)) h) in
  timerId (debouncedUpdate h') = None
  /\ lastArgs (debouncedUpdate h') = None
  /\ map flush_key (flushes h') = map flush_key (flushes h) ++ [own_flush ct].
Proof.
  destruct ct as [c t]. unfold not_early. cbn [fst snd]. intros Hidle Hle.
  unfold timer_runs, updateNote, debounced.
  cbn [debouncedUpdate titleRef flushes]. rewrite Hidle.
  assert (Hdue : (call_time c + Z.max 0 wait <=? t) = true) by lia.
  assert (Hinv : forall li,
             shouldInvoke wait t
               (mkDebounced (Some (call_editor c, call_noteId c))
                  (Some (call_time c)) li
                  (setTimeout (call_time c) wait)) = true).
  { intros li. unfold shouldInvoke. cbn [lastCallTime].
    apply orb_true_iff. left. lia. }
  destruct (shouldInvoke wait (call_time c) (debouncedUpdate h));
    cbn [timerId setTimeout]; rewrite Hdue;
    unfold timerExpired; rewrite Hinv;
    unfold trailingEdge; cbn [lastArgs lastCallTime];
    rewrite flush_at_debounced, flush_at_flushes; cbn [flushes debouncedUpdate
      timerId lastArgs fst snd];
    rewrite map_app; auto.
Qed.

(** X7. Calls of the update function are all flushed when the timeout of
    each has run before the next call is made, however late it runs and
    however close the calls are: starting with nothing pending, there is
    one flush per call, in the order of the calls, each run when the
    timeout ran, on the editor and noteId of its call, and nothing is
    pending at the end. *)
Theorem calls_answered_in_turn_are_each_flushed (calls : list (UpdateCall * Z)) :
  forall h : Hook,
    timerId (debouncedUpdate h) = None ->
    Forall (not_early wait) calls ->
    let h' := play options env (answered_in_turn calls) h in
    map flush_key (flushes h') = map flush_key (flushes h) ++ map own_flush calls
    /\ timerId (debouncedUpdate h') = None.
Proof.
  induction calls as [|ct calls IH]; intros h Hidle Hall; cbv zeta.
  - cbn. now rewrite app_nil_r.
  - apply Forall_cons in Hall as [Hct Hall].
    destruct (call_then_timer ct h Hidle Hct) as (Hidle1 & _ & Hf1).
    cbn [answered_in_turn flat_map app play occur].
    set (h1 := timer_runs options env (snd ct) _) in *.
    destruct (IH h1 Hidle1 Hall) as [Hf Hi].
    fold (answered_in_turn calls). rewrite Hf, Hf1, <- app_assoc. auto.
Qed.

Lemma expire_count (h : Hook) :
  (length (flushes (expire options env h)) + recorded (expire options env h)
   = length (flushes h) + recorded h)%nat.
Proof.
  unfold expire.
  destruct (timerId (debouncedUpdate h)) as [due|]; [|reflexivity].
  unfold timerExpired, trailingEdge.
  destruct (shouldInvoke wait due (debouncedUpdate h)); [|reflexivity].
  unfold recorded at 2.
  destruct (lastArgs (debouncedUpdate h)) as [args|]; [|reflexivity].
  unfold recorded. rewrite flush_at_flushes, flush_at_debounced, length_app.
  cbn. lia.
Qed.

Lemma elapse_count (now : Z) (h : Hook) :
  (length (flushes (elapse options env now h)) + recorded (elapse options env now h)
   = length (flushes h) + recorded h)%nat.
Proof.
  unfold elapse, expire_due.
  destruct (is_due now h); [|destruct (is_due now h); now rewrite ?expire_count].
  destruct (is_due now (expire options env h)); now rewrite !expire_count.
Qed.

(** X8. The hook never flushes more often than its update function was
    called with an editor: over any sequence of calls and cleanups, the
    flushes that ran, plus one if a call is still recorded, grow by at
    most the number of such calls. *)
Theorem flushes_never_outnumber_calls (events : list (Z * Event)) :
  forall (h : Hook) (horizon : Z),
    let h' := elapse options env horizon (run options env events h) in
    (length (flushes h') + recorded h'
     <= length (flushes h) + recorded h + update_calls events)%nat.
Proof.
  induction events as [|[time ev] events IH]; intros h horizon; cbv zeta.
  - cbn [run]. rewrite elapse_count. unfold update_calls. cbn. lia.
  - cbn [run]. specialize (IH (handle options time ev (elapse options env time h))
                             horizon). cbv zeta in IH.
    pose proof (elapse_count time h) as He.
    set (h1 := elapse options env time h) in *.
    assert (Hstep : (length (flushes (handle options time ev h1))
                     + recorded (handle options time ev h1)
                     <= length (flushes h1) + recorded h1
                        + (if is_update ev then 1 else 0))%nat).
    { destruct ev as [[e|] noteId|]; cbn [handle updateNote unmount is_update].
      - unfold recorded at 1. unfold debounced. cbn [flushes debouncedUpdate].
        destruct (timerId (debouncedUpdate h1));
          [|destruct (shouldInvoke _ _ _)]; cbn; lia.
      - lia.
      - unfold recorded at 1. cbn. lia. }
    assert (Hcount : update_calls ((time, ev) :: events)
                     = ((if is_update ev then 1 else 0) + update_calls events)%nat).
    { unfold update_calls. rewrite filter_cons. cbn [snd].
      destruct (is_update ev); cbn; reflexivity. }
    rewrite Hcount. lia.
Qed.

Lemma titles_of_app (r1 r2 : list ServiceCall) :
  titles_of (r1 ++ r2) = titles_of r1 ++ titles_of r2.
Proof. unfold titles_of. apply omap_app. Qed.

Lemma changes_snoc (titles : list string) :
  forall (prev t : string),
    changes prev titles -> t <> List.last titles prev ->
    changes prev (titles ++ [t]).
Proof.
  induction titles as [|x titles IH]; intros prev t Hc Hne;
    cbn [changes app] in *.
  - cbn in Hne. auto.
  - destruct Hc as [Hx Hc]. split; [exact Hx|]. apply IH; [exact Hc|].
    now rewrite last_cons in Hne.
Qed.

Lemma flush_at_in_step (time : Z) (args : EditorRef * ID) (h : Hook) :
  titles_in_step h -> titles_in_step (flush_at options env time args h).
Proof.
  intros [Hc Hr]. destruct args as [e noteId]. unfold titles_in_step, requests.
  rewrite (flush_at_flushes options env time (e, noteId) h). cbn [fst snd].
  rewrite map_app, concat_app. cbn [map concat flush_trace]. rewrite app_nil_r.
  fold (requests h). rewrite titles_of_app.
  unfold flush_at. cbn [titleRef].
  destruct (truthy_id noteId) eqn:G.
  - rewrite flush_titleRef, flush_calls by assumption.
    destruct (String.eqb_spec (or_default (documentTitle (view env e time)) "")
                (titleRef h)) as [Heq|Hne]; cbn [app titles_of omap list_omap].
    + rewrite app_nil_r. split; [exact Hc | now rewrite Heq].
    + split.
      * apply changes_snoc; [exact Hc | now rewrite <- Hr].
      * now rewrite last_last.
  - rewrite flush_guarded by (cbn; now rewrite G).
    cbn. rewrite app_nil_r. split; assumption.
Qed.

Lemma expire_in_step (h : Hook) :
  titles_in_step h -> titles_in_step (expire options env h).
Proof.
  intros Hs. unfold expire.
  destruct (timerId (debouncedUpdate h)); [|exact Hs].
  destruct (timerExpired wait z (debouncedUpdate h)) as [s [args|]].
  - now apply flush_at_in_step.
  - exact Hs.
Qed.

Lemma elapse_in_step (now : Z) (h : Hook) :
  titles_in_step h -> titles_in_step (elapse options env now h).
Proof.
  intros Hs. unfold elapse, expire_due.
  repeat (destruct (is_due now _)); auto using expire_in_step.
Qed.

Lemma run_in_step (events : list (Z * Event)) :
  forall h : Hook, titles_in_step h -> titles_in_step (run options env events h).
Proof.
  induction events as [|[time ev] events IH]; intros h Hs; [exact Hs|].
  cbn [run]. apply IH.
  pose proof (elapse_in_step time h Hs) as Hs'.
  destruct ev as [[e|] noteId|]; exact Hs'.
Qed.

(** X9. Over the life of a hook no title request repeats the title of
    the title request before it, and the first one does not carry the
    empty title; titleRef always holds the title requested last
    (the empty string before any). *)
Theorem title_requests_never_repeat (events : list (Z * Event)) (horizon : Z) :
  let h := elapse options env horizon (run options env events mounted) in
  changes "" (titles_of (requests h))
  /\ titleRef h = List.last (titles_of (requests h)) "".
Proof.
  apply elapse_in_step, run_in_step. split; [exact I | reflexivity].
Qed.

End Running.

End MoreTimeFacts.

(** ** More about NoteList *)

Module MoreNoteListFacts.

Import NoteList Order NoteListFacts.

Lemma js_sort_sorted_id {A} (cmp : A -> A -> Z) (l : list A) :
  StronglySorted (before cmp) l -> js_sort cmp l = l.
Proof.
  induction 1 as [|x l Hs IH Hx]; [reflexivity|].
  cbn [js_sort foldr]. fold (js_sort cmp l). rewrite IH.
  destruct l as [|y l]; [reflexivity|]. cbn [insert_sorted].
  apply Forall_cons in Hx as [Hxy _]. unfold before in Hxy.
  destruct (Z.leb_spec (cmp x y) 0); [reflexivity | lia].
Qed.

Lemma filter_all {A} (P : A -> Prop) `{!forall x, Decision (P x)} (l : list A) :
  Forall P l -> filter P l = l.
Proof.
  induction 1 as [|x l Hx _ IH]; [reflexivity|].
  now rewrite filter_cons_True, IH.
Qed.

Lemma filter_none {A} (P : A -> Prop) `{!forall x, Decision (P x)} (l : list A) :
  Forall (fun x => ~ P x) l -> filter P l = [].
Proof.
  induction 1 as [|x l Hx _ IH]; [reflexivity|].
  now rewrite filter_cons_False.
Qed.

Lemma shown_all_kept (notes : list Note) (type : ListType) :
  Forall (fun note => keep type note = true) (filteredAndSortedNotes notes type).
Proof.
  apply Forall_forall. intros note Hin.
  now apply filteredAndSortedNotes_elem in Hin.
Qed.

(** X10. The two lists split the notes: every note of the array is shown
    in exactly one of the workspace list and the private list; together
    the two lists are a rearrangement of the array, so no note is lost or
    shown twice. *)
Theorem workspace_and_private_lists_split_notes (notes : list Note) :
  Permutation
    (filteredAndSortedNotes notes Workspace ++ filteredAndSortedNotes notes Private)
    notes
  /\ (length (filteredAndSortedNotes notes Workspace)
      + length (filteredAndSortedNotes notes Private) = length notes)%nat.
Proof.
  assert (Hp : Permutation
                 (filteredAndSortedNotes notes Workspace
                  ++ filteredAndSortedNotes notes Private) notes).
  { rewrite !filteredAndSortedNotes_perm.
    rewrite <- (filter_app_complement (fun note => keep Workspace note = true) notes)
      at 3.
    apply Permutation_app_head.
    erewrite list_filter_iff; [reflexivity|].
    intros note. unfold keep. destruct (access note); cbn; split; congruence. }
  split; [exact Hp|].
  rewrite <- length_app. now apply Permutation_length.
Qed.

(** X11. What NoteList lists is stable under NoteList: filtering and
    sorting the listed notes again, for the same type, gives the same list
    in the same order, and for the other type gives nothing. *)
Theorem listed_notes_are_a_fixed_point (notes : list Note) (type type' : ListType) :
  filteredAndSortedNotes (filteredAndSortedNotes notes type) type'
  = match type, type' with
    | Workspace, Workspace | Private, Private => filteredAndSortedNotes notes type
    | _, _ => []
    end.
Proof.
  assert (Hsame : filteredAndSortedNotes (filteredAndSortedNotes notes type) type
                  = filteredAndSortedNotes notes type).
  { unfold filteredAndSortedNotes at 1.
    rewrite filter_all by apply shown_all_kept.
    apply js_sort_sorted_id.
    apply (js_sort_sorted compare_updated compare_updated_anti
             compare_updated_trans). }
  assert (Hother : forall t t', (forall n, keep t' n = negb (keep t n)) ->
                     filteredAndSortedNotes (filteredAndSortedNotes notes t) t' = []).
  { intros t t' Hk. unfold filteredAndSortedNotes at 1.
    rewrite filter_none; [reflexivity|].
    eapply Forall_impl; [apply shown_all_kept|].
    intros note Hn. cbn beta. rewrite Hk, Hn. discriminate. }
  destruct type, type'; try exact Hsame; apply Hother;
    intros n; unfold keep; now destruct (access n).
Qed.

End MoreNoteListFacts.

(** * The feed *)

Module FeedFacts.

Import Feed ComponentSpec.

Lemma run_feed_navigating events s :
  forallb (fun ev => negb (is_default_change ev)) events = true ->
  isNavigating s = true ->
  isNavigating (fst (run_feed events s)) = true.
Proof.
  revert s; induction events as [|ev rest IH]; intros s H Hs; [exact Hs|].
  cbn [forallb] in H. apply andb_prop in H as [Hev Hrest].
  cbn [run_feed].
  destruct (handle_event ev s) as [s1 out1] eqn:E1.
  assert (isNavigating s1 = true) as H1.
  { destruct ev; cbn in Hev; try discriminate; cbn in E1;
      injection E1 as <- _; cbn; auto. }
  specialize (IH s1 Hrest H1).
  destruct (run_feed rest s1) as [s2 out2]. exact IH.
Qed.

(** X12. After a click on a tab the feed shows as loading, whatever the
    feed hook reports, through every later click, customisation and
    filter change; only a change of the default tab ends it, and then the
    feed is loading exactly when the hook says so and the default tab is
    the active one. *)
Theorem feed_loads_until_default_tab_changes
    (tab : string) (events : list FeedEvent) (s : FeedState) (isLoading : bool) :
  forallb (fun ev => negb (is_default_change ev)) events = true ->
  let s' := fst (run_feed events (fst (handleTabChange tab s))) in
  combinedIsLoading isLoading s' = true
  /\ forall defaultTab,
       let s'' := fst (handle_event (DefaultTabChanged defaultTab) s') in
       combinedIsLoading isLoading s'' = isLoading
       /\ activeTab s'' = defaultTab.
Proof.
  intros H s'. split.
  - unfold combinedIsLoading, s'.
    rewrite (run_feed_navigating events _ H); [apply orb_true_r | reflexivity].
  - intros defaultTab s''. unfold s'', combinedIsLoading. cbn.
    split; [apply orb_false_r | reflexivity].
Qed.

(** X13. Two different tabs never lead to the same route, the tab with the
    empty id apart; in particular the tabs on offer, signed in or not, lead
    to different routes. *)
Theorem tabs_lead_to_different_routes (tab1 tab2 : string) :
  tab1 <> "" -> tab2 <> "" ->
  tab_href tab1 = tab_href tab2 ->
  tab1 = tab2
  /\ forall isAuthenticated,
       NoDup (map (fun t => tab_href (tab_id t)) (tabs isAuthenticated)).
Proof.
  intros H1 H2 E. split.
  - unfold tab_href in E.
    destruct (String.eqb_spec tab1 "popular") as [-> | N1];
      destruct (String.eqb_spec tab2 "popular") as [-> | N2].
    + reflexivity.
    + destruct tab2; [congruence | discriminate E].
    + destruct tab1; [congruence | discriminate E].
    + cbn in E. now injection E.
  - intros [|]; apply (bool_decide_unpack _); vm_compute; exact I.
Qed.

End FeedFacts.

(** * Uploading from the image modal *)

Module UploadFacts.

Import ImageUploadModal ImageUploadFlow ComponentSpec.

Lemma handle_modal_event_holds_image ev st :
  holds_image (fst st) -> holds_image (fst (fst (handle_modal_event ev st))).
Proof.
  destruct st as [m awaited]. cbn [fst]. intros Hm file.
  destruct ev as [| |files|files| |outcome|]; cbn.
  - apply Hm.
  - apply Hm.
  - unfold handleDrop. cbn. destruct (is_image (head files)) eqn:E; cbn.
    + intros Hf. rewrite Hf in E. exact E.
    + apply Hm.
  - unfold handleFileSelect. destruct (is_image (files ≫= head)) eqn:E; cbn.
    + intros Hf. rewrite Hf in E. exact E.
    + apply Hm.
  - unfold handleUpload_request. destruct (selectedFile m) as [f|] eqn:E; cbn.
    + intros [= <-]. apply Hm, E.
    + apply Hm.
  - destruct awaited; cbn; apply Hm.
  - apply Hm.
Qed.

Lemma uploads_app out1 out2 :
  uploads (out1 ++ out2) = uploads out1 ++ uploads out2.
Proof. unfold uploads. apply omap_app. Qed.

Lemma handle_modal_event_uploads ev st :
  holds_image (fst st) ->
  Forall (fun '(file, entity) => is_image (Some file) = true /\ entity = "comment")
         (uploads (snd (handle_modal_event ev st))).
Proof.
  destruct st as [m awaited]. cbn [fst]. intros Hm.
  destruct ev as [| |files|files| |outcome|]; cbn; try constructor.
  - unfold handleUpload_request. destruct (selectedFile m) as [f|] eqn:E; cbn;
      repeat constructor. apply Hm, E.
  - destruct awaited; [constructor|]. destruct outcome; constructor.
Qed.

Lemma run_awaiting_uploads events st :
  holds_image (fst st) ->
  Forall (fun '(file, entity) => is_image (Some file) = true /\ entity = "comment")
         (uploads (snd (run_awaiting events st))).
Proof.
  revert st; induction events as [|ev rest IH]; intros st Hm; [constructor|].
  cbn [run_awaiting].
  pose proof (handle_modal_event_holds_image ev st Hm) as H1.
  pose proof (handle_modal_event_uploads ev st Hm) as U1.
  destruct (handle_modal_event ev st) as [st1 out1].
  specialize (IH st1 H1).
  destruct (run_awaiting rest st1) as [st2 out2].
  cbn [snd fst] in *. rewrite uploads_app. apply Forall_app. split; assumption.
Qed.

Lemma run_modal_snd events m :
  snd (run_modal events m) = snd (run_awaiting events (m, O)).
Proof.
  unfold run_modal. now destruct (run_awaiting events (m, O)) as [[m' n] out].
Qed.

(** An open request more does no harm. *)
Lemma answered_more out :
  forall awaited, answered awaited out -> answered (S awaited) out.
Proof.
  assert (H : forall n out awaited,
             (length out <= n)%nat ->
             answered awaited out -> answered (S awaited) out).
  { clear out. induction n as [|n IH]; intros out awaited Hlen Ha.
    - destruct out; [exact I | cbn in Hlen; lia].
    - destruct out as [|[file entity|url|] rest]; cbn in *.
      + exact I.
      + apply IH; [lia | exact Ha].
      + destruct rest as [|[| |] rest]; try contradiction.
        destruct awaited as [|awaited]; [contradiction|].
        apply IH; [cbn in Hlen; lia | exact Ha].
      + apply IH; [lia | exact Ha]. }
  intros awaited. now apply (H (length out)).
Qed.

Lemma count_app {A} (test : A -> bool) (l1 l2 : list A) :
  count test (l1 ++ l2) = (count test l1 + count test l2)%nat.
Proof. unfold count. now rewrite List.filter_app, length_app. Qed.

Lemma count_cons {A} (test : A -> bool) (x : A) (l : list A) :
  count test (x :: l) = ((if test x then 1 else 0) + count test l)%nat.
Proof. unfold count. cbn. now destruct (test x). Qed.

Lemma run_awaiting_answered events :
  forall m awaited,
    let out := snd (run_awaiting events (m, awaited)) in
    answered awaited out
    /\ count is_close out = (count is_embed out + count is_close_click events)%nat.
Proof.
  induction events as [|ev rest IH]; intros m awaited; cbv zeta.
  - cbn. auto.
  - cbn [run_awaiting].
    destruct (handle_modal_event ev (m, awaited)) as [[m1 awaited1] out1] eqn:E1.
    specialize (IH m1 awaited1). cbv zeta in IH.
    destruct (run_awaiting rest (m1, awaited1)) as [st2 out2].
    cbn [snd] in *. destruct IH as [Ha Hc].
    rewrite !count_app, Hc, (count_cons is_close_click).
    destruct ev as [| |files|files| |outcome|]; cbn in E1.
    + injection E1 as <- <- <-. cbn. auto.
    + injection E1 as <- <- <-. cbn. auto.
    + injection E1 as <- <- <-. cbn. auto.
    + injection E1 as <- <- <-. cbn. auto.
    + unfold handleUpload_request in E1. destruct (selectedFile m); cbn in E1;
        injection E1 as <- <- <-; cbn.
      * replace (awaited + 1)%nat with (S awaited) in Ha by lia. auto.
      * replace (awaited + 0)%nat with awaited in Ha by lia. auto.
    + destruct awaited as [|awaited']; [injection E1 as <- <- <-; cbn; auto|].
      injection E1 as <- <- <-. destruct outcome; cbn.
      * split; [exact Ha | lia].
      * split; [now apply answered_more | lia].
    + injection E1 as <- <- <-. cbn. split; [exact Ha | lia].
Qed.

(** X14. Whatever is dragged, dropped, picked and uploaded, in whatever
    order, from the opening of the modal on: every file that is sent to the
    server is an image, and it is sent as a comment asset. *)
Theorem only_images_are_uploaded (events : list ModalEvent) :
  Forall (fun '(file, entity) => is_image (Some file) = true /\ entity = "comment")
         (uploads (snd (run_modal events initial_modal))).
Proof.
  rewrite run_modal_snd. apply run_awaiting_uploads.
  intros file. cbn. discriminate.
Qed.

(** X15. Whatever happens to the open modal, in whatever order, uploads
    settling while other handlers run included: every embedding of an
    image answers an upload request made before it, each request being
    answered at most once, and is followed at once by the closing; the
    modal is closed otherwise only by the clicks on X and Cancel, once per
    click. A failed upload embeds and closes nothing and keeps the file
    selected, and without a selected file a click on Upload does
    nothing. *)
Theorem modal_embeds_only_uploaded_images (events : list ModalEvent) (m : Modal) :
  let out := snd (run_modal events m) in
  answered 0 out
  /\ count is_close out = (count is_embed out + count is_close_click events)%nat
  /\ handleUpload_settled UploadFailed = []
  /\ (selectedFile m = None ->
      handleUpload_request m = (m, [])
      /\ forall outcome, handleUpload outcome m = (m, []))
  /\ (forall file, selectedFile m = Some file ->
      snd (handleUpload_request m) = [UploadAsset file "comment"]
      /\ selectedFile (fst (handleUpload_request m)) = Some file
      /\ forall outcome,
           handleUpload outcome m
           = (fst (handleUpload_request m),
              snd (handleUpload_request m) ++ handleUpload_settled outcome)).
Proof.
  cbv zeta. rewrite run_modal_snd.
  destruct (run_awaiting_answered events m 0) as [Ha Hc].
  split; [exact Ha|]. split; [exact Hc|]. split; [reflexivity|]. split.
  - intros E. unfold handleUpload_request, handleUpload. rewrite E. auto.
  - intros file E. unfold handleUpload_request, handleUpload. rewrite E. cbn.
    split; [reflexivity|]. split; [reflexivity|]. now intros [url|].
Qed.

End UploadFacts.

(** * The kind of a shared document *)

Module ShareFacts.

Import ShareModal ComponentSpec.

Lemma append_cons a s t : String a s +:+ t = String a (s +:+ t).
Proof. reflexivity. Qed.

Lemma append_nil t : "" +:+ t = t.
Proof. reflexivity. Qed.

Lemma prefix_spec needle hay :
  String.prefix needle hay = true <-> exists after, hay = needle +:+ after.
Proof.
  revert hay; induction needle as [|a needle IH]; intros hay.
  - split; [intros _; now exists hay | now destruct hay].
  - destruct hay as [|b hay]; cbn [String.prefix].
    + split; [discriminate | intros [? E]; rewrite append_cons in E;
                              discriminate E].
    + destruct (Ascii.ascii_dec a b) as [<- | N].
      * rewrite IH. split; intros [after E]; exists after;
          rewrite append_cons in *; congruence.
      * split; [discriminate | intros [? E]; rewrite append_cons in E].
        injection E as E _. now destruct N.
Qed.

Lemma includes_spec needle hay :
  includes needle hay = true <-> occurs needle hay.
Proof.
  unfold occurs. induction hay as [|b hay IH]; cbn [includes].
  - rewrite orb_false_r, prefix_spec. split.
    + intros [after E]. now exists "", after.
    + intros ([|c before] & after & E).
      * now exists after.
      * rewrite append_cons in E. discriminate E.
  - rewrite orb_true_iff, prefix_spec, IH. split.
    + intros [[after E] | (before & after & E)].
      * now exists "", after.
      * exists (String b before), after. rewrite append_cons. now rewrite E.
    + intros ([|c before] & after & E).
      * left. now exists after.
      * right. rewrite append_cons in E. injection E as _ E.
        now exists before, after.
Qed.

Lemma includes_false needle hay :
  includes needle hay = false <-> ~ occurs needle hay.
Proof. rewrite <- includes_spec. now destruct (includes needle hay). Qed.

(** X16. The kind named in the title of the share dialog goes by the first
    of the segments /post/, /paper/, /fund/, /grant/ that occurs anywhere
    in the URL, in this order of precedence, and it is empty exactly when
    none of them occurs. *)
Theorem share_type_goes_by_first_segment (url : string) :
  (occurs "/post/" url -> getShareType url = "Preprint")
  /\ (~ occurs "/post/" url -> occurs "/paper/" url ->
      getShareType url = "Paper")
  /\ (~ occurs "/post/" url -> ~ occurs "/paper/" url -> occurs "/fund/" url ->
      getShareType url = "Proposal")
  /\ (~ occurs "/post/" url -> ~ occurs "/paper/" url -> ~ occurs "/fund/" url ->
      occurs "/grant/" url -> getShareType url = "RFP")
  /\ (getShareType url = ""
      <-> ~ occurs "/post/" url /\ ~ occurs "/paper/" url
          /\ ~ occurs "/fund/" url /\ ~ occurs "/grant/" url).
Proof.
  unfold getShareType.
  rewrite <- !includes_false, <- !includes_spec.
  destruct (includes "/post/" url), (includes "/paper/" url),
    (includes "/fund/" url), (includes "/grant/" url);
    repeat split; intros; try discriminate; try reflexivity;
    repeat match goal with H : _ /\ _ |- _ => destruct H end;
    try discriminate.
Qed.

End ShareFacts.

(** * The features of the landing page *)

Module FeatureFacts.

Import Features.

(** X17. However the navigation buttons are clicked, the card of the
    active feature renders, it has a button, and every button of it leads
    somewhere: the handler looked up by the feature's id is never the one
    that does nothing. *)
Theorem every_feature_button_navigates (clicks : list nat) :
  Forall (fun index => index ∈ navigation) clicks ->
  exists buttons,
    card_buttons (after_clicks clicks) = Some buttons
    /\ buttons <> []
    /\ Forall (fun b => is_Some (button_route b)) buttons.
Proof.
  intros H.
  assert (after_clicks clicks ∈ navigation) as Hin.
  { unfold after_clicks. induction H as [|index rest Hi Hrest IH].
    - cbn. apply list_elem_of_here.
    - destruct rest; [exact Hi | exact IH]. }
  unfold navigation in Hin. cbn in Hin.
  rewrite !elem_of_cons, elem_of_nil in Hin.
  destruct Hin as [-> | [-> | [-> | []]]]; cbn;
    eexists; (split; [reflexivity|]); (split; [discriminate|]);
    repeat constructor; eexists; reflexivity.
Qed.

End FeatureFacts.

(** * The status of a grant *)

Module GrantFacts.

Import GrantStatus.

(** X18. When the status section renders, it says Unknown exactly when
    the grant has no end date or an empty one, be the grant open or not;
    it says that applications are accepted exactly when there is an end
    date and the status is OPEN, and Closed exactly when there is an end
    date and the status is anything else or missing. Without a note, a
    post or a grant it always renders, as Unknown. *)
Theorem grant_status_goes_by_end_date
    (format_date : string -> option string) (work : Work) (view : StatusView) :
  GrantStatusSection format_date work = Some view ->
  (label view = "Unknown" <-> truthy_opt (endDate_of work) = false)
  /\ (label view = "Accepting Applications"
      <-> truthy_opt (endDate_of work) = true /\ status_of work = Some "OPEN")
  /\ (label view = "Closed"
      <-> truthy_opt (endDate_of work) = true /\ status_of work <> Some "OPEN")
  /\ (grant_of work = None -> label view = "Unknown").
Proof.
  unfold GrantStatusSection. intros H.
  assert (grant_of work = None -> truthy_opt (endDate_of work) = false) as Hg.
  { unfold endDate_of. now intros ->. }
  destruct (truthy_opt (endDate_of work)) eqn:Et; cbn [negb] in H.
  - destruct (format_date _) as [date|]; [|discriminate].
    injection H as <-. cbn [label].
    destruct (bool_decide (status_of work = Some "OPEN")) eqn:Eo;
      [apply bool_decide_eq_true in Eo | apply bool_decide_eq_false in Eo];
      repeat split; intros; try discriminate; try tauto;
      try (exfalso; intuition congruence).
  - injection H as <-. cbn [label].
    repeat split; intros; try discriminate; try tauto;
      try (exfalso; intuition congruence).
Qed.

End GrantFacts.

(** * The EIN of a nonprofit *)

Module NonprofitFacts.

Import Nonprofit.

Lemma substring_all s : String.substring 0 (String.length s) s = s.
Proof. induction s as [|a s IH]; cbn; [reflexivity | now rewrite IH]. Qed.

Lemma display_ein_cases ein :
  display_ein ein
  = match ein with
    | String a (String b rest) => String a (String b ("-" +:+ rest))
    | String a EmptyString => String a "-"
    | EmptyString => "-"
    end.
Proof.
  unfold display_ein, js_substring.
  destruct ein as [|a [|b rest]]; [reflexivity | reflexivity |].
  cbn [String.length default].
  replace (Nat.min 0 (S (S (String.length rest)))) with 0%nat by lia.
  replace (Nat.min 2 (S (S (String.length rest)))) with 2%nat by lia.
  replace (Nat.min (S (S (String.length rest))) (S (S (String.length rest))))
    with (S (S (String.length rest))) by lia.
  replace (Nat.min 0 2) with 0%nat by reflexivity.
  replace (Nat.max 0 2 - 0)%nat with 2%nat by reflexivity.
  replace (Nat.min 2 (S (S (String.length rest)))) with 2%nat by lia.
  replace (Nat.max 2 (S (S (String.length rest))) - 2)%nat
    with (String.length rest) by lia.
  cbn [String.substring]. rewrite substring_all.
  destruct rest; reflexivity.
Qed.

Lemma display_ein_length ein :
  String.length (display_ein ein) = S (String.length ein).
Proof.
  rewrite display_ein_cases. destruct ein as [|a [|b rest]]; reflexivity.
Qed.

(** X19. The EIN is displayed with one dash added and nothing lost: the
    display is one character longer, different EINs are displayed
    differently, and an EIN of two characters or more has the dash after
    the second one. Shorter EINs get the dash at the end. *)
Theorem ein_display_adds_one_dash (ein other : string) :
  String.length (display_ein ein) = S (String.length ein)
  /\ (display_ein ein = display_ein other -> ein = other)
  /\ ((2 <= String.length ein)%nat ->
      String.substring 2 1 (display_ein ein) = "-")
  /\ ((String.length ein < 2)%nat -> display_ein ein = ein +:+ "-").
Proof.
  split; [apply display_ein_length|]. split; [|split].
  - intros E.
    assert (String.length ein = String.length other) as L.
    { pose proof (display_ein_length ein) as L1.
      pose proof (display_ein_length other) as L2.
      rewrite E in L1. congruence. }
    rewrite !display_ein_cases in E.
    destruct ein as [|a [|b rest]], other as [|a' [|b' rest']];
      cbn in L; try discriminate L; try congruence.
    injection E as -> -> E. do 2 f_equal. exact E.
  - intros L. rewrite display_ein_cases.
    destruct ein as [|a [|b rest]]; cbn in L; try lia.
    destruct rest; reflexivity.
  - intros L. rewrite display_ein_cases.
    destruct ein as [|a [|b rest]]; cbn in L; try lia; reflexivity.
Qed.

End NonprofitFacts.

(** * Reporting content *)

Module FlagFacts.

Import FlagContent.

(** X20. Submitting a report without a reason does nothing. With a
    reason, exactly one request is made; the modal closes exactly when the
    request succeeds, and then after the success message; the content is
    reported as a paper only when the work type is paper and as a post for
    any other work type; a missing or empty comment id is sent as none. *)
Theorem report_closes_iff_request_succeeds
    {JsNumber : Type} (Number : string -> JsNumber)
    (props : FlagProps) (selectedReason : option string)
    (flag_resolves : FlagInput JsNumber -> bool) :
  let out := handleSubmit Number props selectedReason flag_resolves in
  (out = [] <-> truthy_opt selectedReason = false)
  /\ (truthy_opt selectedReason = true ->
      exists input,
        selectedReason = Some (reason input)
        /\ fl_documentId input = documentId props
        /\ (documentType input = "paper" <-> workType props = "paper")
        /\ (documentType input = "researchhubpost" <-> workType props <> "paper")
        /\ (fl_commentId input = None <-> truthy_opt (commentId props) = false)
        /\ (fl_commentId input <> None ->
            exists id, commentId props = Some id
                       /\ fl_commentId input = Some (Number id))
        /\ out = if flag_resolves input
                 then [Flag input; ToastSuccess "Content reported successfully";
                       CloseModal]
                 else [Flag input; ToastError "Failed to report content"]).
Proof.
  intros out. unfold out, handleSubmit.
  destruct (truthy_opt selectedReason) eqn:Er; cbn [negb]; split.
  - split; [|discriminate]. now destruct (flag_resolves _).
  - intros _.
    assert (exists r, selectedReason = Some r) as [r ->].
    { destruct selectedReason as [r|]; [now exists r | discriminate Er]. }
    exists (mkFlagInput
              (if String.eqb (workType props) "paper"
               then "paper" else "researchhubpost")
              (documentId props) r
              (if truthy_opt (commentId props)
               then Some (Number (default "" (commentId props))) else None)).
    cbn [reason fl_documentId documentType fl_commentId default].
    split; [reflexivity|]. split; [reflexivity|].
    split; [|split; [|split; [|split]]].
    + destruct (String.eqb_spec (workType props) "paper") as [e | n];
        split; intros H; try discriminate H; auto; now destruct n.
    + destruct (String.eqb_spec (workType props) "paper") as [e | n];
        split; intros H; try discriminate H; auto; now destruct H.
    + destruct (truthy_opt (commentId props)); split; congruence.
    + destruct (commentId props) as [id|]; cbn [default].
      * destruct (truthy_opt (Some id)); [|congruence].
        intros _. now exists id.
      * cbn. congruence.
    + reflexivity.
  - split; reflexivity.
  - discriminate.
Qed.

End FlagFacts.

(** ** The further properties at work on the sample data *)

Module MoreWitness.

Import Lodash UpdateNoteHook Burst Pattern HookSpec Sample MoreSample
  ComponentSpec ComponentSample.

(** A fetch of note 7 that resolves, with the request of another fetch
    sent while it waits: the note is stored and the old error is gone. *)
Lemma fetch_leaves_note_or_error_witness :
  let all := [SetIsLoading true; SetError None; Call (GetNote "7");
              Call (GetNote "8"); SetNote (Some a_note_with_content);
              SetIsLoading false] in
  let cells' := apply_effects (mkCells None false (Some (PlainError "old"))) all in
  set_no_state [@Call NoteWithContent (GetNote "8")]
  /\ c_note cells' = Some a_note_with_content
  /\ c_error cells' = None.
Proof.
  cbv zeta.
  assert (Hno : set_no_state [@Call NoteWithContent (GetNote "8")])
    by (repeat constructor).
  split; [exact Hno|].
  destruct (MoreHookFacts.fetch_leaves_note_or_error svc_ok "7"
              (mkCells None false (Some (PlainError "old")))
              [Call (GetNote "8")]
              [SetIsLoading true; SetError None; Call (GetNote "7");
               Call (GetNote "8"); SetNote (Some a_note_with_content);
               SetIsLoading false]) as (_ & _ & H).
  - do 3 apply interleaves_own. apply interleaves_other.
    do 2 apply interleaves_own. apply interleaves_nil.
  - exact Hno.
  - exact H.
Defined.

(** Why the other fetches must not set the cells meanwhile: the fetch of
    note 8 is still awaited when the fetch of note 7 starts; it rejects
    first, the fetch of note 7 resolves afterwards, and the hook ends with
    the note of the one next to the error of the other. *)
Lemma overlapping_fetches_mix_note_and_error :
  let all := [SetIsLoading true; SetError None; Call (GetNote "8");
              SetIsLoading true; SetError None; Call (GetNote "7");
              SetError (Some (NoteError "Not found")); SetNote None;
              SetIsLoading false;
              SetNote (Some a_note_with_content); SetIsLoading false] in
  interleaves (trace (fetch svc_one_missing "7")) (trace (fetch svc_one_missing "8"))
    all
  /\ c_note (apply_effects initial all) = Some a_note_with_content
  /\ c_error (apply_effects initial all) = Some (NoteError "Not found").
Proof.
  cbv zeta. split; [|split; reflexivity].
  do 3 apply interleaves_other. do 3 apply interleaves_own.
  do 3 apply interleaves_other. do 2 apply interleaves_own.
  apply interleaves_nil.
Qed.

(** A deletion that resolves, after the request of another deletion was
    sent: loading is off and the old error is gone. *)
Lemma actions_end_settled_witness :
  let cells' := apply_effects (mkCells None true (Some (PlainError "old")))
                  (Call (DeleteNote (IdNum 8))
                   :: trace (deleteNote_action svc_ok (IdNum 7))) in
  c_isLoading cells' = false /\ c_error cells' = None.
Proof.
  destruct (MoreHookFacts.actions_end_settled svc_ok) as (_ & _ & H & _).
  exact (H (IdNum 7) (mkCells None true (Some (PlainError "old")))
           [Call (DeleteNote (IdNum 8))] _
           (MoreHookFacts.interleaves_after _ [Call (DeleteNote (IdNum 8))])
           ltac:(repeat constructor)).
Defined.

(** The copy of the content of the sample note is rejected: the action
    throws after the new note was created. *)
Lemma duplicateNote_failed_copy_leaves_new_note_witness :
  calls_of (trace (duplicateNote_action svc_content_fails "7" "lab"))
  = [GetNote "7";
     CreateNote (mkCreateNoteReq "Plan (Copy)" WORKSPACE "lab");
     UpdateNoteContent (mkUpdateContentReq (IdNum 7) (Some "<p>x</p>")
                          (Some "x") (Some "{}"))].
Proof.
  destruct (MoreHookFacts.duplicateNote_failed_copy_leaves_new_note
              svc_content_fails "7" "lab" a_note_with_content a_note
              (ThrownError (NoteError "Request failed"))
              eq_refl eq_refl eq_refl eq_refl) as (_ & H & _).
  exact H.
Defined.

(** A note with plain text only is duplicated without its text. *)
Lemma duplicateNote_without_content_copies_no_body_witness :
  calls_of (trace (duplicateNote_action svc_plain "7" "lab"))
  = [GetNote "7"; CreateNote (mkCreateNoteReq "Plan (Copy)" WORKSPACE "lab")].
Proof.
  rewrite (MoreHookFacts.duplicateNote_without_content_copies_no_body
             svc_plain "7" "lab" a_plain_note a_note
             eq_refl eq_refl eq_refl eq_refl).
  reflexivity.
Defined.

(** The first flush of the sample editor saves the title Plan and calls
    back with it. *)
Lemma flush_calls_back_iff_title_saved_witness :
  title_callbacks
    (trace (debouncedUpdate_body some_options svc_ok true "" (Some an_editor)
              (IdNum 7)))
  = ["Plan"].
Proof.
  rewrite (MoreHookFacts.flush_calls_back_iff_title_saved some_options svc_ok
             true "" an_editor (IdNum 7) eq_refl).
  reflexivity.
Defined.

(** A flush against the service that rejects content updates, after
    another flush sent its content request, leaves an error. *)
Lemma flush_error_iff_request_failed_witness :
  c_error (apply_effects (mkCells None false None)
             (Call (UpdateNoteContent (content_request an_editor (IdNum 7)))
              :: trace (debouncedUpdate_body some_options svc_content_fails true ""
                          (Some an_editor) (IdNum 7))))
  <> None.
Proof.
  destruct (MoreHookFacts.flush_error_iff_request_failed some_options
              svc_content_fails true "" an_editor (IdNum 7)
              (mkCells None false None)
              [Call (UpdateNoteContent (content_request an_editor (IdNum 7)))] _
              eq_refl
              (MoreHookFacts.interleaves_after _
                 [Call (UpdateNoteContent (content_request an_editor (IdNum 7)))])
              ltac:(repeat constructor)) as [_ H].
  intros E. apply H in E. vm_compute in E.
  apply Forall_cons_1 in E as [_ E]. apply Forall_cons_1 in E as [E _].
  discriminate E.
Defined.

(** Two calls at 100 and 105 ms without wait, each followed by the run of
    its timeout, at 105 ms both: both are flushed. *)
Lemma calls_answered_in_turn_are_each_flushed_witness :
  Forall (not_early 0) two_answered_calls
  /\ map flush_key
       (flushes (play no_wait_options an_env (answered_in_turn two_answered_calls)
                   mounted))
     = [(105, 1%nat, IdNum 7); (105, 2%nat, IdNum 7)].
Proof.
  assert (Hall : Forall (not_early 0) two_answered_calls).
  { repeat constructor; unfold not_early; cbn; lia. }
  split; [exact Hall|].
  destruct (MoreTimeFacts.calls_answered_in_turn_are_each_flushed no_wait_options
              an_env two_answered_calls mounted eq_refl Hall) as [H _].
  exact H.
Defined.

(** A click on Latest, then a customisation and a filter change: the feed
    still shows as loading, though the hook has finished. *)
Lemma feed_loads_until_default_tab_changes_witness :
  Feed.combinedIsLoading false
    (fst (Feed.run_feed [Feed.CustomizeChange; Feed.SourceFilterChange Feed.researchhub]
            (fst (Feed.handleTabChange "latest" a_feed))))
  = true.
Proof.
  destruct (FeedFacts.feed_loads_until_default_tab_changes "latest"
              [Feed.CustomizeChange; Feed.SourceFilterChange Feed.researchhub]
              a_feed false eq_refl) as [H _].
  exact H.
Defined.

(** The three tabs offered to a signed-in user lead to three routes. *)
Lemma tabs_lead_to_different_routes_witness :
  Feed.tab_href "latest" = Feed.tab_href "latest"
  /\ NoDup (map (fun t => Feed.tab_href (Feed.tab_id t)) (Feed.tabs true)).
Proof.
  split; [reflexivity|].
  assert ("latest" <> "") as Hne by discriminate.
  destruct (FeedFacts.tabs_lead_to_different_routes "latest" "latest" Hne Hne
              eq_refl) as [_ H].
  apply H.
Defined.

(** A picture is selected; Upload is clicked, then Cancel, then the upload
    succeeds: the modal is closed by the click, the picture is embedded
    afterwards and the modal closed once more. *)
Lemma modal_embeds_only_uploaded_images_witness :
  snd (ImageUploadFlow.run_modal
         [ImageUploadFlow.UploadClick; ImageUploadFlow.CloseClick;
          ImageUploadFlow.UploadSettles (ImageUploadFlow.Uploaded "/media/figure.png")]
         a_modal_with_picture)
  = [ImageUploadFlow.UploadAsset a_picture "comment"; ImageUploadFlow.OnClose;
     ImageUploadFlow.OnImageEmbed "/media/figure.png"; ImageUploadFlow.OnClose]
  /\ ImageUploadModal.selectedFile
       (fst (ImageUploadFlow.handleUpload_request a_modal_with_picture))
     = Some a_picture.
Proof.
  split; [reflexivity|].
  destruct (UploadFacts.modal_embeds_only_uploaded_images [] a_modal_with_picture)
    as (_ & _ & _ & _ & H).
  destruct (H a_picture eq_refl) as (_ & H' & _). exact H'.
Defined.

(** A link to a paper inside a post counts as a preprint. *)
Lemma share_type_goes_by_first_segment_witness :
  ShareModal.getShareType "https://www.researchhub.com/post/12/paper/" = "Preprint".
Proof.
  destruct (ShareFacts.share_type_goes_by_first_segment
              "https://www.researchhub.com/post/12/paper/") as [H _].
  apply H. exists "https://www.researchhub.com", "12/paper/". reflexivity.
Defined.

(** Clicks on the third and the second navigation button: the card of
    Earn, with one button. *)
Lemma every_feature_button_navigates_witness :
  exists buttons,
    Features.card_buttons (Features.after_clicks [2%nat; 1%nat]) = Some buttons
    /\ buttons <> []
    /\ Forall (fun b => is_Some (Features.button_route b)) buttons.
Proof.
  apply FeatureFacts.every_feature_button_navigates.
  repeat constructor.
Defined.

(** An open grant without end date shows as Unknown. *)
Lemma grant_status_goes_by_end_date_witness :
  GrantStatus.GrantStatusSection any_format an_open_work
  = Some (GrantStatus.mkStatusView "bg-gray-400" "Unknown" None)
  /\ truthy_opt (GrantStatus.endDate_of an_open_work) = false.
Proof.
  split; [reflexivity|].
  destruct (GrantFacts.grant_status_goes_by_end_date any_format an_open_work
              _ eq_refl) as [H _].
  apply H. reflexivity.
Defined.

(** The EIN 123456789 is displayed as 12-3456789. *)
Lemma ein_display_adds_one_dash_witness :
  String.substring 2 1 (Nonprofit.display_ein "123456789") = "-".
Proof.
  destruct (NonprofitFacts.ein_display_adds_one_dash "123456789" "") as (_ & _ & H & _).
  apply H. cbn. lia.
Defined.

(** A report on a comment of a grant is sent as a report on a post. *)
Lemma report_closes_iff_request_succeeds_witness :
  exists input,
    FlagContent.documentType input = "researchhubpost"
    /\ FlagContent.handleSubmit (fun numeral => numeral) some_flag_props
         (Some "SPAM")
         (fun _ => true)
       = [FlagContent.Flag input;
          FlagContent.ToastSuccess "Content reported successfully";
          FlagContent.CloseModal].
Proof.
  destruct (FlagFacts.report_closes_iff_request_succeeds
              (fun numeral => numeral) some_flag_props (Some "SPAM") (fun _ => true)) as [_ H].
  destruct (H eq_refl) as (input & _ & _ & _ & Hpost & _ & _ & Hout).
  exists input. split; [|exact Hout].
  apply Hpost. discriminate.
Defined.

End MoreWitness.
